(** * Story segment pipeline: the React client (StoryContext, StoryViewPage,
    StoryCreatorPage) embedded over an abstract HTTP backend.

    JavaScript values are modelled as follows.
    - A string is its sequence of UTF-16 code units ([list N]); [trim],
      [slice] and truthiness are written out on that representation.
    - Identifiers (story, segment, operation, scene ids) are opaque strings.
    - An optional / possibly [undefined] field is an [option].
    - [activePollsRef.current] (a JS [Set]) is a [gset]; the
      [generationStatus] object and the per-scene objects of the creator page
      are [gmap]s.
    - An [async] function is a computation in the monad [Act]: it threads the
      client and the backend, and either returns or throws. It runs to
      completion: the backend answers each awaited request before any other
      event is handled.
    - Timers are entries of the client ([intervals], [timeouts]) whose
      callbacks run when the matching event ([IntervalFires],
      [TimeoutFires]) happens.
    - The actions of the provider are closures over the [state] of the
      render that created them; that state is the parameter [rendered]. *)

From Stdlib Require Import ZArith NArith Ascii.
From stdpp Require Import gmap strings list sorting pretty.

Open Scope Z_scope.

(* ===================================================================== *)
(** ** JavaScript strings *)
(* ===================================================================== *)

Abbreviation jsstring := (list N) (only parsing).

(** A literal of the source, as code units. *)
Definition js (s : string) : jsstring :=
  (λ c, N_of_ascii c) <$> String.list_ascii_of_string s.
Global Arguments js : simpl never.

(** ECMAScript WhiteSpace and LineTerminator code points, the characters
    removed by [String.prototype.trim]. *)
Definition is_white_space (c : N) : bool :=
  ((c =? 0x9) || (c =? 0xA) || (c =? 0xB) || (c =? 0xC) || (c =? 0xD)
   || (c =? 0x20) || (c =? 0xA0) || (c =? 0x1680)
   || ((0x2000 <=? c) && (c <=? 0x200A))
   || (c =? 0x2028) || (c =? 0x2029) || (c =? 0x202F) || (c =? 0x205F)
   || (c =? 0x3000) || (c =? 0xFEFF))%N.

Fixpoint trimStart (s : jsstring) : jsstring :=
  match s with
  | c :: s' => if is_white_space c then trimStart s' else s
  | [] => []
  end.

Definition trimEnd (s : jsstring) : jsstring := reverse (trimStart (reverse s)).

(** [s.trim()] *)
Definition trim (s : jsstring) : jsstring := trimEnd (trimStart s).

(** [s.slice(0, n)] for a non-negative [n]. *)
Definition slice0 (n : nat) (s : jsstring) : jsstring := take n s.

(** Truthiness of a string: only the empty string is falsy. *)
Definition truthy (s : jsstring) : bool :=
  match s with [] => false | _ :: _ => true end.

(** Truthiness of an identifier-valued field that may be missing. *)
Definition truthy_id (o : option string) : bool :=
  match o with Some (String _ _) => true | _ => false end.

(** [a || b] where [a] may be [undefined] or a string and [b] is a string. *)
Definition or_str (a : option jsstring) (b : jsstring) : jsstring :=
  match a with
  | Some s => if truthy s then s else b
  | None => b
  end.

(** A prompt that is empty or made of white space only. *)
Definition blank (s : jsstring) : Prop := Forall (λ c, is_white_space c = true) s.

(* ===================================================================== *)
(** ** Data model: the JSON documents exchanged with the backend *)
(* ===================================================================== *)

Abbreviation StoryId := string (only parsing).
Abbreviation SegId := string (only parsing).
Abbreviation OpId := string (only parsing).
Abbreviation SceneId := string (only parsing).

(** Segment status, also used as the status of a generation operation. *)
Inductive Status := pending | generating | publishing | completed | failed.

Global Instance Status_eq_dec : EqDecision Status.
Proof. solve_decision. Defined.

Record Segment := {
  seg_id : SegId;
  sequence_number : Z;
  original_prompt : jsstring;
  status : Status;
  operation_id : option OpId;
  video_url : option jsstring;
  last_frame_url : option jsstring;
}.

Record Scene := {
  scene_id : SceneId;
  scene_sequence : Z;
  veo_prompt : option jsstring;
  visual_description : option jsstring;
}.

(** The structured story returned by the story-expansion service. *)
Record StoryGeneration := {
  sg_title : option jsstring;
  sg_premise : option jsstring;
  sg_prompt : option jsstring;
  sg_scenes : list Scene;
}.

Record Story := {
  story_id : StoryId;
  title : jsstring;
  description : jsstring;
  segments : list Segment;
  final_video_url : option jsstring;
  generation_data : option StoryGeneration;
}.

(** The payload of [GET /generation-status/:operationId]. *)
Record GenStatus := {
  gs_status : Status;
  gs_error : option jsstring;
  gs_segment_id : option SegId;
  gs_video_url : option jsstring;
}.

(** The payload of [POST /stories/:id/generate]. *)
Record GenerateResult := { gr_operation_id : OpId; gr_segment_id : SegId }.

(** The payload of [POST /stories/:id/stitch]. *)
Record StitchResult := { sr_final_video_url : jsstring }.

(** The multipart form built by [generateVideoSegment]. *)
Record GenerateForm := {
  f_prompt : jsstring;
  f_use_previous_frame : bool;
  f_target_sequence : option Z;
  f_image : option jsstring;
}.

(** Modelled from the spec: the typed errors of the error taxonomy
    (section 7) that the backend signals. The client does not look at them;
    they travel with the rejection. *)
Inductive ErrorKind :=
| NotReady (blocking : SegId)
| NoPriorSegment
| ValidationError
| ExternalServiceError
| NotFound.

(** A rejected request as the client sees it: [error.response.data.error],
    [error.message], and the typed error the backend signalled, if any. *)
Record ApiError := {
  response_error : option jsstring;
  message : option jsstring;
  kind : option ErrorKind;
}.

Inductive Response (A : Type) :=
| Ok (data : A)
| Rejected (e : ApiError).
Arguments Ok {A} data.
Arguments Rejected {A} e.

(** Requests issued through [apiClient], recorded in the order sent. *)
Inductive Request :=
| PostStories (t d : jsstring) (user_id : string)
| GetStory (sid : StoryId)
| PostGenerate (sid : StoryId) (form : GenerateForm)
| PostStitch (sid : StoryId)
| GetGenerationStatus (op : OpId)
| PutGeneration (sid : StoryId) (g : StoryGeneration)
| PostStoriesGenerate (prompt : jsstring) (target_total max_scene : Z).

(** The backend behind [apiClient]: one method per endpoint used. *)
Class Backend (B : Type) := {
  post_stories : jsstring → jsstring → string → B → Response Story * B;
  get_story : StoryId → B → Response Story * B;
  post_generate : StoryId → GenerateForm → B → Response GenerateResult * B;
  post_stitch : StoryId → B → Response StitchResult * B;
  get_generation_status : OpId → B → Response GenStatus * B;
  put_generation : StoryId → StoryGeneration → B → Response unit * B;
  post_stories_generate : jsstring → Z → Z → B → Response StoryGeneration * B;
}.

(* ===================================================================== *)
(** ** StoryContext.js: reducer *)
(* ===================================================================== *)

Record State := {
  stories : list Story;
  currentStory : option Story;
  currentStoryGeneration : option StoryGeneration;
  loading : bool;
  error : option jsstring;
  generationStatus : gmap string GenStatus;
  storyGenerationStep : Z;
}.

Definition initialState : State := {|
  stories := [];
  currentStory := None;
  currentStoryGeneration := None;
  loading := false;
  error := None;
  generationStatus := ∅;
  storyGenerationStep := 1;
|}.

Inductive Action :=
| SET_LOADING (payload : bool)
| SET_ERROR (payload : jsstring)
| SET_STORIES (payload : list Story)
| SET_CURRENT_STORY (payload : Story)
| ADD_STORY (payload : Story)
| UPDATE_STORY (payload : Story)
| UPDATE_GENERATION_STATUS (operationId : OpId) (st : GenStatus)
| CLEAR_ERROR
| SET_CURRENT_STORY_GENERATION (payload : option StoryGeneration)
| SET_STORY_GENERATION_STEP (payload : Z)
| UPDATE_STORY_GENERATION (payload : StoryGeneration).

Definition same_story (a b : Story) : bool :=
  bool_decide (story_id a = story_id b).

Definition storyReducer (state : State) (action : Action) : State :=
  let ss := stories state in
  let cs := currentStory state in
  let cg := currentStoryGeneration state in
  let ld := loading state in
  let er := error state in
  let gs := generationStatus state in
  let stp := storyGenerationStep state in
  match action with
  | SET_LOADING p => Build_State ss cs cg p er gs stp
  | SET_ERROR p => Build_State ss cs cg false (Some p) gs stp
  | CLEAR_ERROR => Build_State ss cs cg ld None gs stp
  | SET_STORIES p => Build_State p cs cg false er gs stp
  | SET_CURRENT_STORY p => Build_State ss (Some p) cg false er gs stp
  | ADD_STORY p => Build_State (p :: ss) cs cg false er gs stp
  | UPDATE_STORY p =>
      Build_State
        ((λ story, if same_story story p then p else story) <$> ss)
        (match cs with
         | Some c => if same_story c p then Some p else cs
         | None => cs
         end)
        cg false er gs stp
  | UPDATE_GENERATION_STATUS op st =>
      Build_State ss cs cg ld er (<[op := st]> gs) stp
  | SET_CURRENT_STORY_GENERATION p => Build_State ss cs p false er gs stp
  | SET_STORY_GENERATION_STEP p => Build_State ss cs cg ld er gs p
  | UPDATE_STORY_GENERATION p => Build_State ss cs (Some p) false er gs stp
  end.

(* ===================================================================== *)
(** ** StoryContext.js: the provider's mutable parts *)
(* ===================================================================== *)

(** The closure of one [setInterval] callback of [startStatusPolling]: the
    [operationId] it polls, the [state] of the provider it captured, and the
    period it was registered with. *)
Record Poller := {
  p_operationId : OpId;
  p_state : State;
  p_every_ms : Z;
}.

(** The closure of the [setTimeout] callback of [startStatusPolling]: the
    interval it clears, the [operationId] it deletes, and its delay. *)
Record Cap := {
  c_pollInterval : nat;
  c_operationId : OpId;
  c_after_ms : Z;
}.

Inductive Toast :=
| toast_success (msg : jsstring)
| toast_error (msg : jsstring).

Record Client := {
  state : State;
  activePolls : gset string;      (* activePollsRef.current *)
  intervals : gmap nat Poller;    (* intervals not yet cleared, by timer id *)
  timeouts : gmap nat Cap;        (* timeouts not yet fired, by timer id *)
  next_timer : nat;               (* next timer id handed out *)
  toasts : list Toast;            (* oldest first *)
  requests : list Request;        (* oldest first *)
  console : list string;          (* console.error labels, oldest first *)
}.

Definition initialClient : Client := {|
  state := initialState;
  activePolls := ∅;
  intervals := ∅;
  timeouts := ∅;
  next_timer := 0;
  toasts := [];
  requests := [];
  console := [];
|}.

Definition with_state (f : State → State) (c : Client) : Client :=
  let st := state c in
  let ap := activePolls c in
  let iv := intervals c in
  let tm := timeouts c in
  let nt := next_timer c in
  let ts := toasts c in
  let rq := requests c in
  let co := console c in
  Build_Client (f st) ap iv tm nt ts rq co.

Definition with_toast (t : Toast) (c : Client) : Client :=
  let st := state c in
  let ap := activePolls c in
  let iv := intervals c in
  let tm := timeouts c in
  let nt := next_timer c in
  let ts := toasts c in
  let rq := requests c in
  let co := console c in
  Build_Client st ap iv tm nt (ts ++ [t]) rq co.

Definition with_request (r : Request) (c : Client) : Client :=
  let st := state c in
  let ap := activePolls c in
  let iv := intervals c in
  let tm := timeouts c in
  let nt := next_timer c in
  let ts := toasts c in
  let rq := requests c in
  let co := console c in
  Build_Client st ap iv tm nt ts (rq ++ [r]) co.

Definition with_console (l : string) (c : Client) : Client :=
  let st := state c in
  let ap := activePolls c in
  let iv := intervals c in
  let tm := timeouts c in
  let nt := next_timer c in
  let ts := toasts c in
  let rq := requests c in
  let co := console c in
  Build_Client st ap iv tm nt ts rq (co ++ [l]).

(** [clearInterval(h); activePollsRef.current.delete(op)] *)
Definition stop_polling (h : nat) (op : OpId) (c : Client) : Client :=
  let st := state c in
  let ap := activePolls c in
  let iv := intervals c in
  let tm := timeouts c in
  let nt := next_timer c in
  let ts := toasts c in
  let rq := requests c in
  let co := console c in
  Build_Client st (ap ∖ {[op]}) (delete h iv) tm nt ts rq co.

Definition POLL_EVERY_MS : Z := 15000.
Definition POLL_CAP_MS : Z := 600000.

(** [startStatusPolling(operationId)]: synchronous, never throws. The
    actions of the provider are closures over the [state] of the render
    that created them; [rendered] is that state. *)
Definition startStatusPolling (rendered : State) (operationId : OpId)
    (c : Client) : Client :=
  if bool_decide (operationId ∈ activePolls c) then c
  else
    let st := state c in
    let ap := activePolls c in
    let iv := intervals c in
    let tm := timeouts c in
    let nt := next_timer c in
    let ts := toasts c in
    let rq := requests c in
    let co := console c in
    let pollInterval := nt in
    let poller := {| p_operationId := operationId;
                     p_state := rendered;
                     p_every_ms := POLL_EVERY_MS |} in
    let cap := {| c_pollInterval := pollInterval;
                  c_operationId := operationId;
                  c_after_ms := POLL_CAP_MS |} in
    Build_Client st ({[operationId]} ∪ ap) (<[pollInterval := poller]> iv)
                 (<[S pollInterval := cap]> tm) (S (S nt)) ts rq co.

(** The filter of [resumePollingForStory]. *)
Definition in_progress (seg : Segment) : bool :=
  (bool_decide (status seg = generating) || bool_decide (status seg = publishing))
  && truthy_id (operation_id seg).

Definition resumable (story : Story) : list OpId :=
  omap operation_id (filter (λ seg, in_progress seg = true) (segments story)).

(** [resumePollingForStory(story)] *)
Definition resumePollingForStory (rendered : State) (story : Story)
    (c : Client) : Client :=
  foldl (λ c op, startStatusPolling rendered op c) c (resumable story).

(* ===================================================================== *)
(** ** Asynchronous actions *)
(* ===================================================================== *)

Inductive Outcome (A : Type) :=
| Return (a : A)
| Throw (e : ApiError).
Arguments Return {A} a.
Arguments Throw {A} e.

(** An [async] function run to completion: each awaited request is answered
    by the backend before anything else happens. *)
Definition Act (B A : Type) : Type := Client * B → Outcome A * (Client * B).

Section Actions.
Context {B : Type} `{!Backend B}.

(** The [state] of the render that created the actions. *)
Variable rendered : State.

Definition ret {A} (a : A) : Act B A := λ w, (Return a, w).

Definition throw {A} (e : ApiError) : Act B A := λ w, (Throw e, w).

Definition bind {A C} (m : Act B A) (k : A → Act B C) : Act B C :=
  λ w, match m w with
       | (Return a, w') => k a w'
       | (Throw e, w') => (Throw e, w')
       end.

Definition try_catch {A} (m : Act B A) (h : ApiError → Act B A) : Act B A :=
  λ w, match m w with
       | (Return a, w') => (Return a, w')
       | (Throw e, w') => h e w'
       end.

(** A call that is not awaited: a rejection of its promise reaches nobody. *)
Definition detached {A} (m : Act B A) : Act B unit :=
  λ w, (Return tt, (m w).2).

Definition on_client (f : Client → Client) : Act B unit :=
  λ w, (Return tt, (f w.1, w.2)).

Definition when (b : bool) (m : Act B unit) : Act B unit :=
  if b then m else ret tt.

Global Instance Act_ret : MRet (Act B) := @ret.
Global Instance Act_bind : MBind (Act B) := λ A C k m, bind m k.

Definition dispatch (a : Action) : Act B unit :=
  on_client (with_state (λ st, storyReducer st a)).

Definition toast (t : Toast) : Act B unit := on_client (with_toast t).

Definition console_error (label : string) : Act B unit :=
  on_client (with_console label).

(** [await apiClient.<method>(...)]: the request is recorded, the backend
    answers, and a rejection is thrown. *)
Definition call {A} (r : Request) (f : B → Response A * B) : Act B A :=
  λ w, let reply := f w.2 in
       let w' := (with_request r w.1, reply.2) in
       match reply.1 with
       | Ok a => (Return a, w')
       | Rejected e => (Throw e, w')
       end.

Definition handleApiError (e : ApiError) (defaultMessage : jsstring) : Act B unit :=
  let msg := or_str (response_error e) (or_str (message e) defaultMessage) in
  dispatch (SET_ERROR msg) ;;
  toast (toast_error msg).

Definition createStory (t d : jsstring) (userId : string) : Act B Story :=
  try_catch
    (dispatch (SET_LOADING true) ;;
     dispatch CLEAR_ERROR ;;
     data ← call (PostStories t d userId) (post_stories t d userId);
     dispatch (ADD_STORY data) ;;
     toast (toast_success (js "Story created successfully!")) ;;
     ret data)
    (λ e, handleApiError e (js "Failed to create story") ;; throw e).

Definition loadStory (storyId : StoryId) : Act B Story :=
  try_catch
    (dispatch (SET_LOADING true) ;;
     dispatch CLEAR_ERROR ;;
     data ← call (GetStory storyId) (get_story storyId);
     dispatch (SET_CURRENT_STORY data) ;;
     when (bool_decide (is_Some (generation_data data)))
          (dispatch (SET_CURRENT_STORY_GENERATION (generation_data data))) ;;
     on_client (resumePollingForStory rendered data) ;;
     ret data)
    (λ e, handleApiError e (js "Failed to load story") ;; throw e).

Record GenerateOptions := { silent : bool; targetSequence : option Z }.

Definition no_options : GenerateOptions :=
  {| silent := false; targetSequence := None |}.

Definition generateVideoSegment (storyId : StoryId) (prompt : jsstring)
    (imageFile : option jsstring) (usePreviousFrame : bool)
    (options : GenerateOptions) : Act B GenerateResult :=
  try_catch
    (when (negb (silent options)) (dispatch (SET_LOADING true)) ;;
     dispatch CLEAR_ERROR ;;
     let formData := {| f_prompt := prompt;
                        f_use_previous_frame := usePreviousFrame;
                        f_target_sequence := targetSequence options;
                        f_image := imageFile |} in
     data ← call (PostGenerate storyId formData) (post_generate storyId formData);
     on_client (startStatusPolling rendered (gr_operation_id data)) ;;
     toast (toast_success (js "Video generation started!")) ;;
     when (negb (silent options)) (dispatch (SET_LOADING false)) ;;
     ret data)
    (λ e, handleApiError e (js "Failed to start video generation") ;; throw e).

Definition stitchStory (storyId : StoryId) : Act B StitchResult :=
  try_catch
    (dispatch (SET_LOADING true) ;;
     dispatch CLEAR_ERROR ;;
     data ← call (PostStitch storyId) (post_stitch storyId);
     loadStory storyId ;;
     toast (toast_success (js "Story stitched successfully!")) ;;
     ret data)
    (λ e, handleApiError e (js "Failed to stitch story") ;; throw e).

Definition generateStoryFromPrompt (prompt : jsstring) (target_total max_scene : Z)
    : Act B StoryGeneration :=
  try_catch
    (dispatch (SET_LOADING true) ;;
     dispatch CLEAR_ERROR ;;
     data ← call (PostStoriesGenerate prompt target_total max_scene)
                 (post_stories_generate prompt target_total max_scene);
     dispatch (SET_CURRENT_STORY_GENERATION (Some data)) ;;
     dispatch (SET_STORY_GENERATION_STEP 3) ;;
     toast (toast_success (js "Story generated successfully!")) ;;
     ret data)
    (λ e, handleApiError e (js "Failed to generate story") ;; throw e).

Definition setStoryGenerationStep (step : Z) : Act B unit :=
  dispatch (SET_STORY_GENERATION_STEP step).

(** The title computed by [createStoryFromGeneration]; [None] stands for a
    [null] or [undefined] argument. *)
Definition fallbackTitle (storyGeneration : option StoryGeneration) : jsstring :=
  let rawTitle := trim (or_str (storyGeneration ≫= sg_title) []) in
  if truthy rawTitle then rawTitle
  else slice0 60 (or_str (storyGeneration ≫= sg_premise)
                    (or_str (storyGeneration ≫= sg_prompt) (js "Untitled Story"))).

Record CreateOptions := { c_silent : bool; preserveWizard : bool }.

Definition createStoryFromGeneration (storyGeneration : option StoryGeneration)
    (userId : string) (options : CreateOptions) : Act B Story :=
  try_catch
    (when (negb (c_silent options)) (dispatch (SET_LOADING true)) ;;
     dispatch CLEAR_ERROR ;;
     let t := fallbackTitle storyGeneration in
     match storyGeneration with
     | None =>
         (* [storyGeneration.premise] on null: a TypeError *)
         throw {| response_error := None; message := Some (js "TypeError");
                  kind := None |}
     | Some g =>
         story ← createStory t (or_str (sg_premise g) []) userId;
         try_catch
           (call (PutGeneration (story_id story) g)
                 (put_generation (story_id story) g) ;;
            loadStory (story_id story) ;;
            ret tt)
           (λ _, console_error "Failed to persist story generation data") ;;
         when (negb (preserveWizard options))
              (dispatch (SET_CURRENT_STORY_GENERATION None) ;;
               dispatch (SET_STORY_GENERATION_STEP 1)) ;;
         when (negb (preserveWizard options) && negb (c_silent options))
              (toast (toast_success (js "Story created successfully!"))) ;;
         ret story
     end)
    (λ e, handleApiError e (js "Failed to create story") ;; throw e).

End Actions.

Section Timers.
Context {B : Type} `{!Backend B}.

(** The callback [startStatusPolling] hands to [setInterval], for the
    interval [h] with closure [p]. *)
Definition poll_callback (h : nat) (p : Poller) : Act B unit :=
  let operationId := p_operationId p in
  try_catch
    (st ← call (GetGenerationStatus operationId)
               (get_generation_status operationId);
     dispatch (UPDATE_GENERATION_STATUS operationId st) ;;
     match gs_status st with
     | completed =>
         on_client (stop_polling h operationId) ;;
         toast (toast_success (js "Video generation completed!")) ;;
         match currentStory (p_state p) with
         | Some story =>
             when (truthy_id (gs_segment_id st))
                  (detached (loadStory (p_state p) (story_id story)))
         | None => ret tt
         end
     | failed =>
         on_client (stop_polling h operationId) ;;
         toast (toast_error (js "Video generation failed: "
                               ++ or_str (gs_error st) (js "Unknown error")))
     | _ => ret tt
     end)
    (λ _, console_error "Status polling error:" ;;
          on_client (stop_polling h operationId)).

(** The callback [startStatusPolling] hands to [setTimeout]. *)
Definition cap_callback (cp : Cap) : Act B unit :=
  on_client (stop_polling (c_pollInterval cp) (c_operationId cp)).

End Timers.

(** [ensureStoryExists(userId)]: the story the page works on, created from
    the generated story if there is none yet. A story that [loadStory]
    returns is an object, so [loaded || created] is [loaded]. *)
Section EnsureStory.
Context {B : Type} `{!Backend B}.

(** The [state] of the render that created the action. *)
Variable rendered : State.

Definition ensureStoryExists (userId : string) : Act B Story :=
  let from_generation : Act B Story :=
    match currentStoryGeneration rendered with
    | Some g =>
        created ← createStoryFromGeneration rendered (Some g) userId
                    {| c_silent := true; preserveWizard := true |};
        loaded ← loadStory rendered (story_id created);
        mret loaded
    | None =>
        throw {| response_error := None;
                 message := Some (js "No story or generated story data available to create from");
                 kind := None |}
    end in
  match currentStory rendered with
  | Some s => if truthy_id (Some (story_id s)) then mret s else from_generation
  | None => from_generation
  end.

End EnsureStory.

(* ===================================================================== *)
(** ** api.js: the response interceptor *)
(* ===================================================================== *)

(** The error of a rejected request as axios raises it: [error.response],
    and in it [data.error], both of which may be missing, and
    [error.message]. *)
Record AxiosError := {
  ax_response : option (option jsstring);
  ax_message : option jsstring;
}.

(** The rejection handler of [apiClient.interceptors.response], as the
    actions of the provider then see the error. *)
Definition response_interceptor (error : AxiosError) : ApiError :=
  {| response_error := ax_response error ≫= id;
     message := match ax_response error with
                | None => Some (js "Network error - please check your connection")
                | Some _ => ax_message error
                end;
     kind := None |}.

(* ===================================================================== *)
(** ** The timers of the provider *)
(* ===================================================================== *)

(** The timeout [startStatusPolling] registers next to the interval [h]
    that polls [op]. *)
Definition cap_of (h : nat) (op : OpId) : Cap :=
  {| c_pollInterval := h; c_operationId := op; c_after_ms := POLL_CAP_MS |}.

(** The timers of a provider are in order: every operation in
    [activePollsRef] has an interval polling it, every interval still has
    its timeout pending, registered right after it, and timer ids are not
    handed out twice. *)
Record timers_ok (c : Client) : Prop := {
  ok_active : ∀ op, op ∈ activePolls c →
    ∃ h p, intervals c !! h = Some p ∧ p_operationId p = op;
  ok_capped : ∀ h p, intervals c !! h = Some p →
    timeouts c !! (S h) = Some (cap_of h (p_operationId p));
  ok_caps : ∀ th cp, timeouts c !! th = Some cp →
    th = S (c_pollInterval cp) ∧ c_after_ms cp = POLL_CAP_MS;
  ok_intervals_old : ∀ h, is_Some (intervals c !! h) → (h < next_timer c)%nat;
  ok_timeouts_old : ∀ th, is_Some (timeouts c !! th) → (th < next_timer c)%nat;
}.

Definition keeps_timers {B A} (m : Act B A) : Prop :=
  ∀ w, timers_ok w.1 → timers_ok (m w).2.1.

(* ===================================================================== *)
(** ** What an action leaves behind *)
(* ===================================================================== *)

(** The [message] that [handleApiError] computes. *)
Definition error_message (e : ApiError) (defaultMessage : jsstring) : jsstring :=
  or_str (response_error e) (or_str (message e) defaultMessage).

(** The provider tells how an action ended: after an action that returned
    there is no [error] in the state; after one that threw [e], the state
    holds the message of [e] and the last toast shows it. *)
Definition reported {B A} (defaultMessage : jsstring)
    (r : Outcome A * (Client * B)) : Prop :=
  match r.1 with
  | Return _ => error (state r.2.1) = None
  | Throw e =>
      error (state r.2.1) = Some (error_message e defaultMessage)
      ∧ last (toasts r.2.1) = Some (toast_error (error_message e defaultMessage))
  end.

(* ===================================================================== *)
(** ** The event loop *)
(* ===================================================================== *)

(** What can happen to the provider: a timer fires, or a component calls
    one of the actions that start pollers; the component has rendered with
    the state of the moment. *)
Inductive Event :=
| IntervalFires (h : nat)
| TimeoutFires (h : nat)
| CallLoadStory (storyId : StoryId)
| CallGenerate (storyId : StoryId) (prompt : jsstring) (usePreviousFrame : bool).

Section EventLoop.
Context {B : Type} `{!Backend B}.

Definition forget_timeout (h : nat) (c : Client) : Client :=
  let st := state c in
  let ap := activePolls c in
  let iv := intervals c in
  let tm := timeouts c in
  let nt := next_timer c in
  let ts := toasts c in
  let rq := requests c in
  let co := console c in
  Build_Client st ap iv (delete h tm) nt ts rq co.

Definition step (ev : Event) (w : Client * B) : Client * B :=
  match ev with
  | IntervalFires h =>
      match intervals w.1 !! h with
      | Some p => (poll_callback h p w).2
      | None => w
      end
  | TimeoutFires h =>
      match timeouts w.1 !! h with
      | Some cp => (cap_callback cp (forget_timeout h w.1, w.2)).2
      | None => w
      end
  | CallLoadStory sid => (loadStory (state w.1) sid w).2
  | CallGenerate sid prompt usePrev =>
      (generateVideoSegment (state w.1) sid prompt None usePrev no_options w).2
  end.

Definition run (evs : list Event) (w : Client * B) : Client * B :=
  foldl (λ w ev, step ev w) w evs.

End EventLoop.

(** The live intervals polling [op]. *)
Definition pollers_of (op : OpId) (c : Client) : list nat :=
  (map_to_list (filter (λ kv, p_operationId kv.2 = op) (intervals c))).*1.

(* ===================================================================== *)
(** ** StoryViewPage.js *)
(* ===================================================================== *)

Record ViewPage := {
  newPrompt : jsstring;
  showAddSegment : bool;
  isStitching : bool;
}.

Definition truthy_opt (o : option jsstring) : bool :=
  match o with Some s => truthy s | None => false end.

(** [currentStory?.segments?.filter(s => s.status === 'completed') || []] *)
Definition completedSegments (currentStory : option Story) : list Segment :=
  match currentStory with
  | Some s => filter (λ seg, status seg = completed) (segments s)
  | None => []
  end.

Definition canStitch (currentStory : option Story) : bool :=
  (0 <? length (completedSegments currentStory))%nat
  && negb (truthy_opt (currentStory ≫= final_video_url)).

(** [Array.prototype.sort(compare)]: a stable sort; [x] goes before [y]
    unless [compare(x, y) > 0]. *)
Fixpoint sort_insert {A} (compare : A → A → Z) (x : A) (l : list A) : list A :=
  match l with
  | [] => [x]
  | y :: l' =>
      if compare x y <=? 0 then x :: y :: l'
      else y :: sort_insert compare x l'
  end.

Definition array_sort {A} (compare : A → A → Z) (l : list A) : list A :=
  foldr (sort_insert compare) [] l.

(** The comparator of the segment list, [(a, b) => a.sequence_number -
    b.sequence_number]. *)
Definition by_sequence_number (a b : Segment) : Z :=
  sequence_number a - sequence_number b.

Definition le_sequence (a b : Segment) : Prop :=
  sequence_number a ≤ sequence_number b.

Definition lt_sequence (a b : Segment) : Prop :=
  sequence_number a < sequence_number b.

(** The segments in the order the page lists them. *)
Definition listed_segments (story : Story) : list Segment :=
  array_sort by_sequence_number (segments story).

Section ViewPageHandlers.
Context {B : Type} `{!Backend B}.

(** The [state] the page rendered with, which its [actions] close over. *)
Variable rendered : State.

Definition handleAddSegment (storyId : StoryId) (page : ViewPage) : Act B ViewPage :=
  if negb (truthy (trim (newPrompt page))) then
    toast (toast_error (js "Please enter a prompt for the new segment"));;
    mret page
  else
    try_catch
      (generateVideoSegment rendered storyId (newPrompt page) None true no_options;;
       let page' := {| newPrompt := []; showAddSegment := false;
                       isStitching := isStitching page |} in
       detached (loadStory rendered storyId);;
       mret page')
      (λ _, console_error "Error adding segment:";; mret page).

Definition handleStitchStory (storyId : StoryId) (page : ViewPage) : Act B ViewPage :=
  let done := {| newPrompt := newPrompt page; showAddSegment := showAddSegment page;
                 isStitching := false |} in
  try_catch
    (stitchStory rendered storyId;; mret done)
    (λ _, console_error "Error stitching story:";; mret done).

End ViewPageHandlers.

(* ===================================================================== *)
(** ** StoryCreatorPage.js *)
(* ===================================================================== *)

Record CreatorPage := {
  storyPrompt : jsstring;
  targetDurationSeconds : Z;
  cardGeneratingById : gmap string bool;
  sceneOpById : list (SceneId * OpId);     (* in [Object.entries] order *)
  sceneVideoById : gmap string jsstring;
  sceneProgressById : gmap string Z;
  sceneLastUpdateById : gmap string Z;
}.

(** The body of the status effect for one [[sceneId, opId]] entry; [now]
    is [Date.now()]. *)
Definition status_effect_entry (now : Z) (generationStatus : gmap string GenStatus)
    (currentStory : option Story) (page : CreatorPage) (entry : SceneId * OpId)
    : CreatorPage :=
  let sceneId := entry.1 in
  let opId := entry.2 in
  match generationStatus !! opId with
  | None => page
  | Some st =>
      let sp := storyPrompt page in
      let td := targetDurationSeconds page in
      let cg := cardGeneratingById page in
      let so := sceneOpById page in
      let sv := sceneVideoById page in
      let pr := sceneProgressById page in
      let lu := sceneLastUpdateById page in
      let lu := <[sceneId := now]> lu in
      let cg := if bool_decide (gs_status st = failed)
                then <[sceneId := false]> cg else cg in
      match gs_status st with
      | completed =>
          let pr := <[sceneId := 100]> pr in
          let cg := <[sceneId := false]> cg in
          let sv :=
            if truthy_opt (gs_video_url st) then
              match gs_video_url st with
              | Some url => <[sceneId := url]> sv
              | None => sv
              end
            else
              match gs_segment_id st, currentStory with
              | Some (String a segId), Some story =>
                  match list_find (λ s, seg_id s = String a segId) (segments story) with
                  | Some (_, seg) =>
                      match video_url seg with
                      | Some url => if truthy url then <[sceneId := url]> sv else sv
                      | None => sv
                      end
                  | None => sv
                  end
              | _, _ => sv
              end in
          Build_CreatorPage sp td cg so sv pr lu
      | generating | publishing =>
          let current := match pr !! sceneId with
                         | Some 0 | None => 10
                         | Some v => v
                         end in
          let next := Z.min 90 (current + 12) in
          Build_CreatorPage sp td cg so sv (<[sceneId := next]> pr) lu
      | _ => Build_CreatorPage sp td cg so sv pr lu
      end
  end.

(** The effect that runs when [generationStatus], [currentStory] or
    [sceneOpById] change. *)
Definition status_effect (now : Z) (generationStatus : gmap string GenStatus)
    (currentStory : option Story) (page : CreatorPage) : CreatorPage :=
  foldl (status_effect_entry now generationStatus currentStory) page
        (sceneOpById page).

(** The width of the progress bar of a card,
    [sceneProgressById[scene.id] || 10] per cent. *)
Definition shown_progress (page : CreatorPage) (sceneId : SceneId) : Z :=
  match sceneProgressById page !! sceneId with
  | Some 0 | None => 10
  | Some v => v
  end.

Inductive Navigation :=
| to_story (sid : StoryId)
| to_story_scene_by_scene (sid : StoryId).

Inductive Mode := whole | scene_by_scene.

Section CreatorPageHandlers.
Context {B : Type} `{!Backend B}.

(** The [state] the page rendered with: its [currentStory] and
    [currentStoryGeneration], and what its [actions] close over. *)
Variable rendered : State.

Definition handlePromptSubmit (page : CreatorPage) : Act B unit :=
  if negb (truthy (trim (storyPrompt page))) then
    toast (toast_error (js "Please enter a story prompt"))
  else
    try_catch
      (setStoryGenerationStep 2;;
       generateStoryFromPrompt (storyPrompt page) (targetDurationSeconds page) 8;;
       mret tt)
      (λ _, console_error "Error generating story:";; setStoryGenerationStep 1).

(** The loop of [handleCreateVideos('whole')], from index [i] on. *)
Fixpoint generate_scenes (storyId : StoryId) (i : nat) (scenes : list Scene)
    : Act B unit :=
  match scenes with
  | [] => mret tt
  | scene :: rest =>
      let usePrev := bool_decide (0 < i)%nat in
      generateVideoSegment rendered storyId (default (js "undefined") (veo_prompt scene))
                           None usePrev no_options;;
      generate_scenes storyId (S i) rest
  end.

Definition handleCreateVideos (mode : Mode) : Act B (option Navigation) :=
  let create :=
    createStoryFromGeneration rendered (currentStoryGeneration rendered) "anonymous"
      {| c_silent := false; preserveWizard := false |} in
  let the_story : Act B Story :=
    match currentStory rendered with
    | Some s => if truthy_id (Some (story_id s)) then mret s else create
    | None => create
    end in
  try_catch
    (story ← the_story;
     match mode with
     | whole =>
         match currentStoryGeneration rendered with
         | Some g =>
             generate_scenes (story_id story) 0 (sg_scenes g);;
             mret (Some (to_story (story_id story)))
         | None =>
             throw {| response_error := None; message := Some (js "TypeError");
                      kind := None |}
         end
     | scene_by_scene => mret (Some (to_story_scene_by_scene (story_id story)))
     end)
    (λ _, console_error "Error creating videos:";; mret None).

End CreatorPageHandlers.


(** The page's state next to [CreatorPage]: when the generation of each
    card was started. *)
Record Cards := {
  cards_page : CreatorPage;
  sceneStartAtById : gmap string Z;
}.

(** [{...prev, [k]: v}] in [Object.entries] order, for keys that are not
    array indices: an existing key keeps its place, a new one goes last. *)
Fixpoint object_set {V} (k : string) (v : V) (o : list (string * V))
    : list (string * V) :=
  match o with
  | [] => [(k, v)]
  | (k', v') :: o' =>
      if bool_decide (k' = k) then (k, v) :: o' else (k', v') :: object_set k v o'
  end.

(** [Number(scene.sequence || scene.sequence_number || index + 1)] *)
Definition scene_number (index : nat) (scene : Scene) : Z :=
  if scene_sequence scene =? 0 then Z.of_nat index + 1 else scene_sequence scene.

(** [`Generate scene ${scene.sequence}`] *)
Definition generate_scene_label (scene : Scene) : jsstring :=
  js "Generate scene " ++ js (pretty (scene_sequence scene)).

(** [scene.veo_prompt || scene.visual_description || `Generate scene ...`] *)
Definition card_prompt (scene : Scene) : jsstring :=
  or_str (veo_prompt scene)
         (or_str (visual_description scene) (generate_scene_label scene)).

Section CardHandlers.
Context {B : Type} `{!Backend B}.

Variable rendered : State.

(** The [onClick] of the Generate button of the storyboard card of [scene],
    the card at [index]; [now] is [Date.now()] once the request has
    returned. *)
Definition generate_card_onClick (index : nat) (scene : Scene) (now : Z)
    (cards : Cards) : Act B Cards :=
  let page := cards_page cards in
  let id := scene_id scene in
  let sp := storyPrompt page in
  let td := targetDurationSeconds page in
  let cg := cardGeneratingById page in
  let so := sceneOpById page in
  let sv := sceneVideoById page in
  let pr := sceneProgressById page in
  let lu := sceneLastUpdateById page in
  if default false (cg !! id) then mret cards
  else
    let cg := <[id := true]> cg in
    try_catch
      (story ← ensureStoryExists rendered "anonymous";
       let storyId := story_id story in
       let usePrev := 1 <? scene_number index scene in
       resp ← generateVideoSegment rendered storyId (card_prompt scene) None usePrev
                {| silent := true;
                   targetSequence := Some (scene_number index scene) |};
       let so := if truthy_id (Some (gr_operation_id resp))
                 then object_set id (gr_operation_id resp) so else so in
       mret {| cards_page := Build_CreatorPage sp td cg so sv (<[id := 10]> pr) lu;
               sceneStartAtById := <[id := now]> (sceneStartAtById cards) |})
      (λ _, console_error "Scene generation failed";;
            mret {| cards_page := Build_CreatorPage sp td cg so sv pr lu;
                    sceneStartAtById := sceneStartAtById cards |}).

End CardHandlers.



(** [value.split(',')] *)
Fixpoint split_on (sep : N) (s : jsstring) : list jsstring :=
  match s with
  | [] => [[]]
  | c :: s' =>
      if (c =? sep)%N then [] :: split_on sep s'
      else match split_on sep s' with
           | piece :: pieces => (c :: piece) :: pieces
           | [] => [[c]]
           end
  end.

(** [l.join(sep)] *)
Fixpoint join (sep : jsstring) (l : list jsstring) : jsstring :=
  match l with
  | [] => []
  | [s] => s
  | s :: l' => s ++ sep ++ join sep l'
  end.

Definition comma : N := 44%N.

(** The [onChange] of the actions field of a character:
    [value.split(',').map(s => s.trim()).filter(Boolean)]. *)
Definition parse_actions (value : jsstring) : list jsstring :=
  filter (λ s, truthy s = true) (trim <$> split_on comma value).

(** The [value] of that field: [char.actions.join(', ')]. *)
Definition show_actions (actions : list jsstring) : jsstring :=
  join (js ", ") actions.

(** A string that does not start with white space. *)
Definition starts_clean (s : jsstring) : Prop :=
  match s with c :: _ => is_white_space c = false | [] => True end.

(** An action as the field stores it: not empty, without white space around
    it and without a comma. *)
Definition stored_action (s : jsstring) : Prop :=
  s ≠ [] ∧ trim s = s ∧ comma ∉ s.

(** *** The first version of the page: a title, a description and the
    first segment *)

Record FirstPage := {
  storyTitle : jsstring;
  storyDescription : jsstring;
  prompt : jsstring;
  uploadedImage : option jsstring;
  isCreating : bool;
}.

Section FirstPageHandlers.
Context {B : Type} `{!Backend B}.

Variable rendered : State.

(** [handleCreateStory]: the page afterwards, and the route it went to. *)
Definition handleCreateStory (page : FirstPage)
    : Act B (FirstPage * option Navigation) :=
  if negb (truthy (trim (storyTitle page))) then
    toast (toast_error (js "Please enter a story title"));;
    mret (page, None)
  else
    let finally := {| storyTitle := storyTitle page;
                      storyDescription := storyDescription page;
                      prompt := prompt page;
                      uploadedImage := uploadedImage page;
                      isCreating := false |} in
    try_catch
      (story ← createStory (storyTitle page) (storyDescription page) "anonymous";
       when (truthy (trim (prompt page)) || bool_decide (is_Some (uploadedImage page)))
            (generateVideoSegment rendered (story_id story)
               (or_str (Some (prompt page)) (js "Create an opening scene"))
               (uploadedImage page) false no_options;;
             mret tt);;
       mret (finally, Some (to_story (story_id story))))
      (λ _, console_error "Error creating story:";; mret (finally, None)).

End FirstPageHandlers.

(* ===================================================================== *)
(** ** A session: timers firing and the user acting, in any order *)
(* ===================================================================== *)

(** What can happen to the provider and its pages: an [Event], or a call of
    another action of the provider or of a handler of a page, each by a
    component that has rendered with the current state. *)
Inductive Interaction :=
| Happens (ev : Event)
| CallCreateStory (t d : jsstring) (userId : string)
| CallGenerateVideoSegment (storyId : StoryId) (prompt : jsstring)
    (imageFile : option jsstring) (usePreviousFrame : bool)
    (options : GenerateOptions)
| CallStitchStory (storyId : StoryId)
| CallGenerateStoryFromPrompt (prompt : jsstring) (target_total max_scene : Z)
| CallCreateStoryFromGeneration (g : option StoryGeneration) (userId : string)
    (options : CreateOptions)
| CallEnsureStoryExists (userId : string)
| AddSegment (storyId : StoryId) (page : ViewPage)
| StitchStory (storyId : StoryId) (page : ViewPage)
| PromptSubmit (page : CreatorPage)
| CreateVideos (mode : Mode)
| GenerateCard (index : nat) (scene : Scene) (now : Z) (cards : Cards)
| CreateStory (page : FirstPage).

Section Session.
Context {B : Type} `{!Backend B}.

Definition interact (i : Interaction) (w : Client * B) : Client * B :=
  let rendered := state w.1 in
  match i with
  | Happens ev => step ev w
  | CallCreateStory t d userId => (createStory t d userId w).2
  | CallGenerateVideoSegment sid prompt image usePrev options =>
      (generateVideoSegment rendered sid prompt image usePrev options w).2
  | CallStitchStory sid => (stitchStory rendered sid w).2
  | CallGenerateStoryFromPrompt prompt t m => (generateStoryFromPrompt prompt t m w).2
  | CallCreateStoryFromGeneration g userId options =>
      (createStoryFromGeneration rendered g userId options w).2
  | CallEnsureStoryExists userId => (ensureStoryExists rendered userId w).2
  | AddSegment sid page => (handleAddSegment rendered sid page w).2
  | StitchStory sid page => (handleStitchStory rendered sid page w).2
  | PromptSubmit page => (handlePromptSubmit page w).2
  | CreateVideos mode => (handleCreateVideos rendered mode w).2
  | GenerateCard index scene now cards =>
      (generate_card_onClick rendered index scene now cards w).2
  | CreateStory page => (handleCreateStory rendered page w).2
  end.

Definition session (ins : list Interaction) (w : Client * B) : Client * B :=
  foldl (λ w i, interact i w) w ins.

End Session.

(* ===================================================================== *)
(** ** StoriesPage.js: the status of a story in the list *)
(* ===================================================================== *)

(** A story as [GET /stories] lists it, as far as its status goes. *)
Record ListedStory := {
  listed_final_video_url : option jsstring;
  segment_count : Z;
}.

(** [matchesFilter], for the value [filterStatus] of the status filter. *)
Definition matchesFilter (filterStatus : string) (story : ListedStory) : bool :=
  bool_decide (filterStatus = "all")
  || (bool_decide (filterStatus = "completed")
      && truthy_opt (listed_final_video_url story))
  || (bool_decide (filterStatus = "in_progress")
      && negb (truthy_opt (listed_final_video_url story))
      && (0 <? segment_count story))
  || (bool_decide (filterStatus = "empty") && (segment_count story =? 0)).

(** The [label] of [getStatusInfo(story)]. *)
Definition getStatusInfo (story : ListedStory) : string :=
  if truthy_opt (listed_final_video_url story) then "Completed"
  else if 0 <? segment_count story then "In Progress"
  else "Empty".

(* ===================================================================== *)
(** ** The backend (Segment Store, Stitcher, Story Orchestrator)

    The Flask backend is not among the sources; the client only calls it.
    Every definition of this module is modelled from the design document,
    whose sections the comments name. *)
(* ===================================================================== *)

Module Spec.

(** Modelled from the spec: a request refused with a typed error
    (section 7). *)
Definition rejected {A} (k : ErrorKind) : Response A :=
  Rejected {| response_error := None; message := None; kind := Some k |}.

(** Modelled from the spec: what the external generation service currently
    says of an operation (sections 4.2 and 6). *)
Inductive Remote :=
| remote_pending
| remote_completed (video : jsstring)
| remote_failed (reason : jsstring).

(** Modelled from the spec: a request sent to the external generation
    service by [submit] (section 4.2). *)
Record Submission := {
  sub_operation : OpId;
  sub_prompt : jsstring;
  sub_seed_image : option jsstring;
  sub_continuity : bool;
}.

(** Modelled from the spec: the state behind the backend, the document
    store and the blob store of section 6, the operation records of
    section 3, and the external generation service. *)
Record Server := {
  srv_stories : gmap string Story;           (* document store *)
  srv_blobs : gmap (list N) (list N);        (* blob store: location ↦ bytes *)
  srv_operations : gmap string (StoryId * SegId); (* GenerationOperation records *)
  srv_remote : gmap string Remote;           (* the external service's answers *)
  srv_submitted : list Submission;           (* submissions, oldest first *)
  srv_next : nat;                            (* identifier supply *)
}.

(** Modelled from the spec: a write to the document store (section 6). *)
Definition with_stories (f : gmap string Story → gmap string Story) (s : Server) :=
  let st := srv_stories s in
  let bl := srv_blobs s in
  let ops := srv_operations s in
  let rm := srv_remote s in
  let sub := srv_submitted s in
  let nx := srv_next s in
  Build_Server (f st) bl ops rm sub nx.

(** Modelled from the spec: the fields of a Story record (section 3) that
    the operations below write. *)
Definition set_segments (segs : list Segment) (s : Story) : Story :=
  {| story_id := story_id s; title := title s; description := description s;
     segments := segs; final_video_url := final_video_url s;
     generation_data := generation_data s |}.

(** Modelled from the spec: recording the final artifact on the story,
    overwriting any prior one (section 4.4, step 5). *)
Definition set_final (loc : jsstring) (s : Story) : Story :=
  {| story_id := story_id s; title := title s; description := description s;
     segments := segments s; final_video_url := Some loc;
     generation_data := generation_data s |}.

(** Modelled from the spec: recording the structured story data on the
    story (section 6). *)
Definition set_generation (g : StoryGeneration) (s : Story) : Story :=
  {| story_id := story_id s; title := title s; description := description s;
     segments := segments s; final_video_url := final_video_url s;
     generation_data := Some g |}.

(** Modelled from the spec: Segment Store [list(storyId)] (section 4.3),
    all segments ordered by sequence number ascending. *)
Definition list_segments (s : Story) : list Segment :=
  array_sort by_sequence_number (segments s).

(** Modelled from the spec: the sequence number allocated by Segment Store
    [append] (section 4.3), max existing + 1, or 1 if none. *)
Definition next_sequence (segs : list Segment) : Z :=
  match segs with
  | [] => 1
  | _ => foldr Z.max 0 (sequence_number <$> segs) + 1
  end.

(** Modelled from the spec: Segment Store [transition] (section 4.3), the
    legal moves [pending → generating → publishing → completed] and any
    non-terminal state [→ failed]. *)
Definition legal_transition (from to : Status) : bool :=
  match from, to with
  | pending, generating | generating, publishing | publishing, completed => true
  | (pending | generating | publishing), failed => true
  | _, _ => false
  end.

(** Modelled from the spec: Story Orchestrator [createStory] (section 4.5),
    a new story with an empty segment list. *)
Definition createStory (t d : jsstring) (srv : Server) : Response Story * Server :=
  let st := srv_stories srv in
  let bl := srv_blobs srv in
  let ops := srv_operations srv in
  let rm := srv_remote srv in
  let sub := srv_submitted srv in
  let nx := srv_next srv in
  let sid := "story-" +:+ pretty nx in
  let story := {| story_id := sid; title := t; description := d; segments := [];
                  final_video_url := None; generation_data := None |} in
  (Ok story, Build_Server (<[sid := story]> st) bl ops rm sub (S nx)).

(** Modelled from the spec: reading a story from the document store
    (section 6), with its segments as [list] returns them. *)
Definition getStory (sid : StoryId) (srv : Server) : Response Story * Server :=
  match srv_stories srv !! sid with
  | Some s => (Ok (set_segments (list_segments s) s), srv)
  | None => (rejected NotFound, srv)
  end.

(** Modelled from the spec: Story Orchestrator [addSegment] (sections 4.5, 5
    and 8). With [usePreviousFrame], a story without segments signals
    [NoPriorSegment], and a story whose most recent segment is not yet
    [completed] is refused; otherwise the continuity frame of that segment
    seeds the submission. The segment is appended, submitted to the
    generation service and moved to [generating]. *)
Definition addSegment (sid : StoryId) (form : GenerateForm) (srv : Server)
    : Response GenerateResult * Server :=
  match srv_stories srv !! sid with
  | None => (rejected NotFound, srv)
  | Some story =>
      if negb (truthy (f_prompt form)) then (rejected ValidationError, srv)
      else
        let seed : Response (option jsstring) :=
          if f_use_previous_frame form then
            match last (list_segments story) with
            | None => rejected NoPriorSegment
            | Some prior =>
                if bool_decide (status prior = completed)
                then Ok (last_frame_url prior)
                else rejected ValidationError
            end
          else Ok (f_image form) in
        match seed with
        | Rejected e => (Rejected e, srv)
        | Ok seedImage =>
            let st := srv_stories srv in
            let bl := srv_blobs srv in
            let ops := srv_operations srv in
            let rm := srv_remote srv in
            let sub := srv_submitted srv in
            let nx := srv_next srv in
            let segId := "segment-" +:+ pretty nx in
            let opId := "operation-" +:+ pretty nx in
            let seg := {| seg_id := segId;
                          sequence_number := next_sequence (segments story);
                          original_prompt := f_prompt form;
                          status := generating;
                          operation_id := Some opId;
                          video_url := None;
                          last_frame_url := None |} in
            let story' := set_segments (segments story ++ [seg]) story in
            let submission := {| sub_operation := opId;
                                 sub_prompt := f_prompt form;
                                 sub_seed_image := seedImage;
                                 sub_continuity := f_use_previous_frame form |} in
            (Ok {| gr_operation_id := opId; gr_segment_id := segId |},
             Build_Server (<[sid := story']> st) bl (<[opId := (sid, segId)]> ops)
                          (<[opId := remote_pending]> rm) (sub ++ [submission])
                          (S nx))
        end
  end.

(** Modelled from the spec: a new location in durable blob storage
    (sections 4.4 and 6), one that holds nothing yet and is a proper,
    non-empty reference. *)
Definition new_location (blobs : gmap (list N) (list N)) : jsstring :=
  fresh ({[ [] ]} ∪ dom blobs).

(** Modelled from the spec: the first blocking segment of section 4.4, the
    first one in listing order that is not [completed]. *)
Definition first_blocking (segs : list Segment) : option Segment :=
  snd <$> list_find (λ seg, status seg ≠ completed) segs.

(** Modelled from the spec: step 3 of [stitch] (section 4.4), the bytes of
    every segment video, in order; [None] when one cannot be fetched. *)
Definition fetch_all (blobs : gmap (list N) (list N)) (segs : list Segment)
    : option (list (list N)) :=
  mapM (λ seg, video_url seg ≫= λ loc, blobs !! loc) segs.

(** Modelled from the spec: Stitcher [stitch(storyId)] (section 4.4). The
    segments are listed in sequence order; an empty list is refused, and so
    is a list with a segment that is not [completed], with [NotReady] naming
    the first such segment. Otherwise the videos are fetched in order and
    concatenated, the result is written to a new location, and that
    location replaces the story's final artifact. A failed fetch aborts
    without touching the prior artifact. *)
Definition stitch (sid : StoryId) (srv : Server) : Response StitchResult * Server :=
  match srv_stories srv !! sid with
  | None => (rejected NotFound, srv)
  | Some story =>
      let segs := list_segments story in
      match segs with
      | [] => (rejected ValidationError, srv)
      | _ :: _ =>
          match first_blocking segs with
          | Some b => (rejected (NotReady (seg_id b)), srv)
          | None =>
              match fetch_all (srv_blobs srv) segs with
              | None => (rejected ExternalServiceError, srv)
              | Some videos =>
                  let st := srv_stories srv in
                  let bl := srv_blobs srv in
                  let ops := srv_operations srv in
                  let rm := srv_remote srv in
                  let sub := srv_submitted srv in
                  let nx := srv_next srv in
                  let loc := new_location bl in
                  (Ok {| sr_final_video_url := loc |},
                   Build_Server (<[sid := set_final loc story]> st)
                                (<[loc := concat videos]> bl) ops rm sub nx)
              end
          end
      end
  end.

(** Modelled from the spec: an update of one segment record of a story in
    the document store (section 6). *)
Definition update_segment (segId : SegId) (f : Segment → Segment)
    (s : Story) : Story :=
  set_segments ((λ seg, if bool_decide (seg_id seg = segId) then f seg else seg)
                  <$> segments s) s.

(** Modelled from the spec: the terminal states (glossary). *)
Definition terminal (st : Status) : bool :=
  match st with completed | failed => true | _ => false end.

(** Modelled from the spec: a segment reaching a terminal state through
    Segment Store [transition] (section 4.3); on the way to [completed] it
    passes through [publishing]. A segment already in a terminal state is
    immutable. *)
Definition finish (st : Status) (video frame : option jsstring) (seg : Segment)
    : Segment :=
  if terminal (status seg) then seg
  else {| seg_id := seg_id seg; sequence_number := sequence_number seg;
          original_prompt := original_prompt seg; status := st;
          operation_id := operation_id seg; video_url := video;
          last_frame_url := frame |}.

Section Externals.

(** Modelled from the spec: the Continuity Extractor (section 4.1), a
    function of the video bytes that yields the bytes of the last frame or
    fails, and the story-expansion service (section 6). *)
Variable extract_last_frame : list N → option (list N).
Variable expand_story : jsstring → Z → Z → Response StoryGeneration.

(** Modelled from the spec: Story Orchestrator [pollStatus] (sections 4.2
    and 4.5). An unknown operation is an error; [completed] runs the
    Continuity Extractor and records video and frame on the segment;
    [failed] marks the segment failed. *)
Definition pollStatus (op : OpId) (srv : Server) : Response GenStatus * Server :=
  match srv_operations srv !! op with
  | None => (rejected NotFound, srv)
  | Some (sid, segId) =>
      match default remote_pending (srv_remote srv !! op) with
      | remote_pending =>
          (Ok {| gs_status := pending; gs_error := None;
                 gs_segment_id := Some segId; gs_video_url := None |}, srv)
      | remote_failed reason =>
          (Ok {| gs_status := failed; gs_error := Some reason;
                 gs_segment_id := Some segId; gs_video_url := None |},
           with_stories (alter (update_segment segId (finish failed None None)) sid) srv)
      | remote_completed video =>
          match srv_blobs srv !! video ≫= extract_last_frame with
          | None =>
              (Ok {| gs_status := failed; gs_error := Some (js "ExtractionFailed");
                     gs_segment_id := Some segId; gs_video_url := None |},
               with_stories (alter (update_segment segId (finish failed None None)) sid) srv)
          | Some frame =>
              let st := srv_stories srv in
              let bl := srv_blobs srv in
              let ops := srv_operations srv in
              let rm := srv_remote srv in
              let sub := srv_submitted srv in
              let nx := srv_next srv in
              let loc := new_location bl in
              (Ok {| gs_status := completed; gs_error := None;
                     gs_segment_id := Some segId; gs_video_url := Some video |},
               Build_Server
                 (alter (update_segment segId
                           (finish completed (Some video) (Some loc))) sid st)
                 (<[loc := frame]> bl) ops rm sub nx)
          end
      end
  end.

(** Modelled from the spec: the document-store write of the structured
    story data of a story (section 6). *)
Definition saveGeneration (sid : StoryId) (g : StoryGeneration) (srv : Server)
    : Response unit * Server :=
  match srv_stories srv !! sid with
  | Some _ => (Ok tt, with_stories (alter (set_generation g) sid) srv)
  | None => (rejected NotFound, srv)
  end.

(** Modelled from the spec: the surfaces exposed to the client
    (section 6). *)
#[export] Instance backend : Backend Server := {|
  post_stories t d _ := createStory t d;
  get_story := getStory;
  post_generate := addSegment;
  post_stitch := stitch;
  get_generation_status := pollStatus;
  put_generation := saveGeneration;
  post_stories_generate p t m srv := (expand_story p t m, srv);
|}.

(** Modelled from the spec: what happens at the backend, a request to one
    of its endpoints (section 6) or the external generation service
    finishing or failing an operation (section 4.2). *)
Inductive Call :=
| call_create (t d : jsstring)
| call_get (sid : StoryId)
| call_add (sid : StoryId) (form : GenerateForm)
| call_stitch (sid : StoryId)
| call_poll (op : OpId)
| call_save (sid : StoryId) (g : StoryGeneration)
| remote_answers (op : OpId) (r : Remote).

(** Modelled from the spec: the backend after one such happening. *)
Definition serve (cl : Call) (srv : Server) : Server :=
  match cl with
  | call_create t d => (createStory t d srv).2
  | call_get sid => (getStory sid srv).2
  | call_add sid form => (addSegment sid form srv).2
  | call_stitch sid => (stitch sid srv).2
  | call_poll op => (pollStatus op srv).2
  | call_save sid g => (saveGeneration sid g srv).2
  | remote_answers op r =>
      {| srv_stories := srv_stories srv; srv_blobs := srv_blobs srv;
         srv_operations := srv_operations srv;
         srv_remote := <[op := r]> (srv_remote srv);
         srv_submitted := srv_submitted srv; srv_next := srv_next srv |}
  end.

(** Modelled from the spec: a backend without stories, holding the given
    blobs. *)
Definition empty (blobs : gmap (list N) (list N)) : Server :=
  {| srv_stories := ∅; srv_blobs := blobs; srv_operations := ∅;
     srv_remote := ∅; srv_submitted := []; srv_next := 0 |}.

(** Modelled from the spec: the states the backend can get into. *)
Definition reachable (srv : Server) : Prop :=
  ∃ blobs calls, srv = foldl (λ s cl, serve cl s) (empty blobs) calls.

End Externals.

(** Modelled from the spec: the invariant of section 3, every story holds
    its segments in strictly increasing order of sequence number. *)
Definition increasing (srv : Server) : Prop :=
  ∀ sid story, srv_stories srv !! sid = Some story →
               StronglySorted lt_sequence (segments story).

End Spec.

(* ===================================================================== *)
(** ** A scripted backend, for running the client on given replies *)
(* ===================================================================== *)

(** [error.message] as the response interceptor of api.js sets it when the
    request got no response. *)
Definition network_error : ApiError :=
  {| response_error := None;
     message := Some (js "Network error - please check your connection");
     kind := None |}.

Record Replay := {
  status_replies : list (Response GenStatus);  (* consumed one per poll *)
  story_doc : option Story;                    (* what GET /stories/:id returns *)
}.

Global Instance replay_backend : Backend Replay := {|
  post_stories _ _ _ b := (Rejected network_error, b);
  get_story _ b :=
    (match story_doc b with Some s => Ok s | None => Rejected network_error end, b);
  post_generate _ _ b := (Rejected network_error, b);
  post_stitch _ b := (Rejected network_error, b);
  get_generation_status _ b :=
    match status_replies b with
    | r :: rest => (r, {| status_replies := rest; story_doc := story_doc b |})
    | [] => (Rejected network_error, b)
    end;
  put_generation _ _ b := (Rejected network_error, b);
  post_stories_generate _ _ _ b := (Rejected network_error, b);
|}.

(* ===================================================================== *)
(** ** Example data *)
(* ===================================================================== *)

Definition segment (n : Z) (id : SegId) (st : Status) (op : OpId)
    (video : option jsstring) : Segment :=
  {| seg_id := id; sequence_number := n; original_prompt := js "a scene";
     status := st; operation_id := Some op; video_url := video;
     last_frame_url := None |}.

Definition story_of (segs : list Segment) (final : option jsstring) : Story :=
  {| story_id := "story-1"; title := js "A story"; description := [];
     segments := segs; final_video_url := final; generation_data := None |}.

Definition completed_1 := segment 1 "seg-1" completed "op-1" (Some (js "v1")).
Definition completed_2 := segment 2 "seg-2" completed "op-2" (Some (js "v2")).
Definition failed_3 := segment 3 "seg-3" failed "op-3" None.
Definition generating_2 := segment 2 "seg-2" generating "op-2" None.
Definition generating_1 := segment 1 "seg-1" generating "op-1" None.

(** A backend holding one story with the given segments, and the videos of
    the two completed segments. *)
Definition server_with (segs : list Segment) : Spec.Server :=
  {| Spec.srv_stories := {[ "story-1" := story_of segs None ]};
     Spec.srv_blobs := {[ js "v1" := [1; 2; 3]%N; js "v2" := [4; 5]%N ]};
     Spec.srv_operations := ∅;
     Spec.srv_remote := ∅;
     Spec.srv_submitted := [];
     Spec.srv_next := 7 |}.

Definition no_frame : list N → option (list N) := λ _, None.
Definition no_expansion : jsstring → Z → Z → Response StoryGeneration :=
  λ _ _ _, Rejected network_error.

Definition still_generating : Response GenStatus :=
  Ok {| gs_status := generating; gs_error := None;
        gs_segment_id := Some "seg-1"; gs_video_url := None |}.

(** A backend whose story has one segment in generation, and which answers
    every status poll with [generating]. *)
Definition slow_backend : Replay :=
  {| status_replies := replicate 60 still_generating;
     story_doc := Some (story_of [generating_1] None) |}.

(** The story is loaded at 0 s, its poller (interval 0, timeout 1) polls
    every 15 s from 15 s to 585 s, and the timeout fires at 600 s. *)
Definition polled_until_cap : list Event :=
  CallLoadStory "story-1" :: replicate 39 (IntervalFires 0) ++ [TimeoutFires 1].

(** As [slow_backend], but the first status poll gets no response. *)
Definition flaky_backend : Replay :=
  {| status_replies := Rejected network_error :: replicate 60 still_generating;
     story_doc := Some (story_of [generating_1] None) |}.

(** The story is loaded at 0 s (interval 0, timeout 1); the poll at 15 s
    fails and ends that poller; the story is loaded again at 20 s (interval
    2, timeout 3), and that poller polls every 15 s from 35 s to 590 s; at
    600 s the timeout of the first poller fires; the story is loaded once
    more at 605 s. *)
Definition reloaded_after_stale_cap : list Event :=
  [CallLoadStory "story-1"; IntervalFires 0; CallLoadStory "story-1"]
  ++ replicate 38 (IntervalFires 2)
  ++ [TimeoutFires 1; CallLoadStory "story-1"].

(** A generated story of two scenes, and a client that shows it next to an
    existing story without segments. *)
Definition two_scenes : StoryGeneration :=
  {| sg_title := Some (js "A story"); sg_premise := None; sg_prompt := None;
     sg_scenes :=
       [ {| scene_id := "scene-1"; scene_sequence := 1;
            veo_prompt := Some (js "opening"); visual_description := None |};
         {| scene_id := "scene-2"; scene_sequence := 2;
            veo_prompt := Some (js "what follows"); visual_description := None |} ] |}.

Definition wizard_state : State :=
  storyReducer (storyReducer initialState (SET_CURRENT_STORY (story_of [] None)))
               (SET_CURRENT_STORY_GENERATION (Some two_scenes)).

Definition wizard_client : Client := with_state (λ _, wizard_state) initialClient.

(** A creator page with one card whose generation was started. *)
Definition one_card : CreatorPage :=
  {| storyPrompt := js "a story"; targetDurationSeconds := 120;
     cardGeneratingById := {[ "scene-1" := true ]};
     sceneOpById := [("scene-1", "op-1")];
     sceneVideoById := ∅;
     sceneProgressById := {[ "scene-1" := 10 ]};
     sceneLastUpdateById := ∅ |}.

(** The provider and the card as the given events happen one after the
    other, the status effect running after each of them. *)
Definition watch (evs : list Event) : (Client * Replay) * CreatorPage :=
  foldl (λ wp ev,
           let w' := step ev wp.1 in
           (w', status_effect 0 (generationStatus (state w'.1))
                              (currentStory (state w'.1)) wp.2))
        ((initialClient, slow_backend), one_card) evs.

(** A backend that gives the same answer to every request of a kind. *)
Record Fixed := {
  on_post_stories : Response Story;
  on_get_story : Response Story;
  on_post_generate : Response GenerateResult;
  on_post_stitch : Response StitchResult;
  on_get_generation_status : Response GenStatus;
  on_put_generation : Response unit;
  on_post_stories_generate : Response StoryGeneration;
}.

Global Instance fixed_backend : Backend Fixed := {|
  post_stories _ _ _ b := (on_post_stories b, b);
  get_story _ b := (on_get_story b, b);
  post_generate _ _ b := (on_post_generate b, b);
  post_stitch _ b := (on_post_stitch b, b);
  get_generation_status _ b := (on_get_generation_status b, b);
  put_generation _ _ b := (on_put_generation b, b);
  post_stories_generate _ _ _ b := (on_post_stories_generate b, b);
|}.

(** A backend that is out of reach. *)
Definition offline : Fixed :=
  {| on_post_stories := Rejected network_error;
     on_get_story := Rejected network_error;
     on_post_generate := Rejected network_error;
     on_post_stitch := Rejected network_error;
     on_get_generation_status := Rejected network_error;
     on_put_generation := Rejected network_error;
     on_post_stories_generate := Rejected network_error |}.

(** A backend that creates, stitches and stores, but from which no story
    can be read back. *)
Definition write_only : Fixed :=
  {| on_post_stories := Ok (story_of [] None);
     on_get_story := Rejected network_error;
     on_post_generate := Ok {| gr_operation_id := "op-1"; gr_segment_id := "seg-1" |};
     on_post_stitch := Ok {| sr_final_video_url := js "gs://final.mp4" |};
     on_get_generation_status := still_generating;
     on_put_generation := Ok tt;
     on_post_stories_generate := Ok two_scenes |}.

(** A backend that answers every request, with a story of one completed
    segment and [completed] for every operation. *)
Definition obliging : Fixed :=
  {| on_post_stories := Ok (story_of [] None);
     on_get_story := Ok (story_of [completed_1] None);
     on_post_generate := Ok {| gr_operation_id := "op-1"; gr_segment_id := "seg-1" |};
     on_post_stitch := Ok {| sr_final_video_url := js "gs://final.mp4" |};
     on_get_generation_status :=
       Ok {| gs_status := completed; gs_error := None;
             gs_segment_id := Some "seg-1"; gs_video_url := None |};
     on_put_generation := Ok tt;
     on_post_stories_generate := Ok two_scenes |}.

(* ===================================================================== *)
(** ** A tactic *)
(* ===================================================================== *)

(** Unfolding of the monad of actions, down to the backend calls. *)
Ltac act_unfold :=
  unfold try_catch, detached, when, dispatch, toast, console_error, on_client,
    call, handleApiError, throw, mbind, mret, Act_bind, Act_ret, bind, ret in *.

(** The hints that show that an action keeps the timers in order. *)
Create HintDb timers discriminated.

(* ===================================================================== *)
(** * Properties *)
(* ===================================================================== *)

(** ** Strings *)

Lemma trimStart_blank (s : jsstring) : blank s → trimStart s = [].
Proof.
  induction 1 as [|c s Hc _ IH]; simpl; [done|]. by rewrite Hc.
Qed.

Lemma trim_blank (s : jsstring) : blank s → trim s = [].
Proof. intros Hs. unfold trim. by rewrite trimStart_blank. Qed.

Lemma truthy_nonempty (s : jsstring) : truthy s = true ↔ s ≠ [].
Proof. destruct s; simpl; split; (done || congruence). Qed.

Lemma or_str_truthy (a : option jsstring) (b : jsstring) :
  truthy b = true → truthy (or_str a b) = true.
Proof.
  intros Hb. unfold or_str. destruct a as [s|]; [|done].
  by destruct (truthy s) eqn:Hs.
Qed.

Lemma slice0_truthy (n : nat) (s : jsstring) :
  (0 < n)%nat → truthy s = true → truthy (slice0 n s) = true.
Proof. destruct n, s; simpl; (done || lia). Qed.

Lemma fallbackTitle_truthy (g : option StoryGeneration) :
  truthy (fallbackTitle g) = true.
Proof.
  unfold fallbackTitle.
  destruct (truthy (trim _)) eqn:Ht; [done|].
  apply slice0_truthy; [lia|]. by do 2 apply or_str_truthy.
Qed.

(** ** Validation of prompts *)

(** C7. A prompt that is empty or made of white space only is rejected on
    the spot, by the add-segment form of the story page and by the prompt
    form of the creator page alike: the handler returns after an error
    toast, the backend is not contacted, no request is recorded and no timer
    is left behind that could retry. *)
Theorem blank_prompt_rejected {B} `{!Backend B} (rendered : State)
    (prompt : jsstring) (storyId : StoryId) (page : ViewPage)
    (cpage : CreatorPage) (w : Client * B) :
  blank prompt →
  newPrompt page = prompt →
  storyPrompt cpage = prompt →
  handleAddSegment rendered storyId page w
    = (Return page,
       (with_toast (toast_error (js "Please enter a prompt for the new segment")) w.1,
        w.2))
  ∧ handlePromptSubmit cpage w
    = (Return tt,
       (with_toast (toast_error (js "Please enter a story prompt")) w.1, w.2))
  ∧ requests (handleAddSegment rendered storyId page w).2.1 = requests w.1
  ∧ requests (handlePromptSubmit cpage w).2.1 = requests w.1.
Proof.
  intros Hblank Hp Hc.
  assert (handleAddSegment rendered storyId page w
    = (Return page,
       (with_toast (toast_error (js "Please enter a prompt for the new segment")) w.1,
        w.2))) as H1.
  { unfold handleAddSegment. rewrite Hp, (trim_blank _ Hblank). done. }
  assert (handlePromptSubmit cpage w
    = (Return tt,
       (with_toast (toast_error (js "Please enter a story prompt")) w.1, w.2))) as H2.
  { unfold handlePromptSubmit. rewrite Hc, (trim_blank _ Hblank). done. }
  rewrite H1, H2. repeat split; by destruct w as [[] ?].
Qed.

Lemma blank_prompt_rejected_witness :
  let page := {| newPrompt := js "  "; showAddSegment := true; isStitching := false |} in
  let cpage := {| storyPrompt := js "  "; targetDurationSeconds := 120;
                  cardGeneratingById := ∅; sceneOpById := [];
                  sceneVideoById := ∅; sceneProgressById := ∅;
                  sceneLastUpdateById := ∅ |} in
  let w := (initialClient, slow_backend) in
  blank (js "  ")
  ∧ newPrompt page = js "  "
  ∧ storyPrompt cpage = js "  "
  ∧ requests (handleAddSegment initialState "story-1" page w).2.1 = requests w.1
  ∧ requests (handlePromptSubmit cpage w).2.1 = requests w.1.
Proof.
  intros page cpage w.
  assert (blank (js "  ")) as H1.
  { repeat constructor. }
  assert (newPrompt page = js "  ") as H2.
  { reflexivity. }
  assert (storyPrompt cpage = js "  ") as H3.
  { reflexivity. }
  split; [exact H1|]. split; [exact H2|]. split; [exact H3|].
  exact (proj2 (proj2 (blank_prompt_rejected initialState (js "  ") "story-1" page cpage w
                         H1 H2 H3))).
Defined.

(** ** Frame lemmas: what the pieces of an action leave alone *)

Lemma startStatusPolling_frame (rendered : State) (op : OpId) (c : Client) :
  state (startStatusPolling rendered op c) = state c
  ∧ requests (startStatusPolling rendered op c) = requests c
  ∧ toasts (startStatusPolling rendered op c) = toasts c.
Proof. unfold startStatusPolling. by case_bool_decide. Qed.

Lemma resumePollingForStory_frame (rendered : State) (story : Story) (c : Client) :
  state (resumePollingForStory rendered story c) = state c
  ∧ requests (resumePollingForStory rendered story c) = requests c
  ∧ toasts (resumePollingForStory rendered story c) = toasts c.
Proof.
  unfold resumePollingForStory. revert c.
  induction (resumable story) as [|op ops IH]; intros c; simpl; [done|].
  destruct (IH (startStatusPolling rendered op c)) as (-> & -> & ->).
  apply startStatusPolling_frame.
Qed.

Section ActionFacts.
Context {B : Type} `{!Backend B}.

(** [loadStory] sends exactly one request and never touches the recorded
    generation statuses. *)
Lemma loadStory_frame (rendered : State) (sid : StoryId) (w : Client * B) :
  requests (loadStory rendered sid w).2.1 = requests w.1 ++ [GetStory sid]
  ∧ generationStatus (state (loadStory rendered sid w).2.1)
    = generationStatus (state w.1).
Proof.
  destruct w as [c b]. unfold loadStory. act_unfold. cbn.
  destruct (get_story sid b) as [[data|e] b'] eqn:Hget; cbn; [|done].
  case_bool_decide; cbn;
    (split; [rewrite (proj1 (proj2 (resumePollingForStory_frame _ data _)))
            |rewrite (proj1 (resumePollingForStory_frame _ data _))]; done).
Qed.

(** ** Story creation from a generated story *)

(** C10. [createStoryFromGeneration] creates the story under a title that
    is never empty: the trimmed title of the generation when that is
    non-empty, otherwise the first 60 characters of the premise, otherwise
    of the prompt, otherwise the literal "Untitled Story". The title is
    what is sent to the backend, and once the backend has created the
    story the action returns it, whatever becomes of the requests that
    persist and reload the generation data. *)
Theorem createStoryFromGeneration_title (rendered : State) (g : StoryGeneration)
    (userId : string) (options : CreateOptions) (w : Client * B) :
  let t := fallbackTitle (Some g) in
  let d := or_str (sg_premise g) [] in
  let raw := trim (default [] (sg_title g)) in
  t ≠ []
  ∧ (raw ≠ [] → t = raw)
  ∧ (raw = [] → truthy_opt (sg_premise g) = true →
       t = take 60 (default [] (sg_premise g)))
  ∧ (raw = [] → truthy_opt (sg_premise g) = false →
       truthy_opt (sg_prompt g) = true →
       t = take 60 (default [] (sg_prompt g)))
  ∧ (raw = [] → truthy_opt (sg_premise g) = false →
       truthy_opt (sg_prompt g) = false →
       t = js "Untitled Story")
  ∧ match (post_stories t d userId w.2).1 with
    | Ok story =>
        ∃ w' rest,
          createStoryFromGeneration rendered (Some g) userId options w = (Return story, w')
          ∧ requests w'.1 = requests w.1 ++ PostStories t d userId :: rest
    | Rejected e =>
        ∃ w',
          createStoryFromGeneration rendered (Some g) userId options w = (Throw e, w')
          ∧ requests w'.1 = requests w.1 ++ [PostStories t d userId]
    end.
Proof.
  intros t d raw.
  assert (or_str (sg_title g) [] = default [] (sg_title g)) as Hraw.
  { destruct (sg_title g) as [[|??]|]; done. }
  split; [apply truthy_nonempty, fallbackTitle_truthy|].
  repeat split.
  - intros Hne. subst t. unfold fallbackTitle. cbn. rewrite Hraw. fold raw.
    by apply truthy_nonempty in Hne as ->.
  - intros He Hp. subst t. unfold fallbackTitle. cbn. rewrite Hraw. fold raw.
    rewrite He. cbn. destruct (sg_premise g) as [[|??]|]; done.
  - intros He Hp Hq. subst t. unfold fallbackTitle. cbn. rewrite Hraw. fold raw.
    rewrite He. cbn.
    destruct (sg_premise g) as [[|??]|], (sg_prompt g) as [[|??]|]; done.
  - intros He Hp Hq. subst t. unfold fallbackTitle. cbn. rewrite Hraw. fold raw.
    rewrite He. cbn.
    destruct (sg_premise g) as [[|??]|], (sg_prompt g) as [[|??]|]; done.
  - destruct w as [c b]. cbn [fst snd].
    unfold createStoryFromGeneration, createStory. fold t d. act_unfold.
    destruct options as [sil pres]. cbn [c_silent preserveWizard].
    destruct (post_stories t d userId b) as [[story|e] b1] eqn:Hpost.
    + destruct sil, pres; cbn; rewrite Hpost; cbn;
        destruct (put_generation (story_id story) g b1) as [[[]|e2] b2] eqn:Hput; cbn;
        try (match goal with
             | |- context [loadStory ?r ?s ?w0] =>
                 pose proof (proj1 (loadStory_frame r s w0)) as Hreq;
                 destruct (loadStory r s w0) as [[d2|e3] [c3 b3]] eqn:Hload;
                 cbn in Hreq |- *
             end);
        eexists _, _; (split; [reflexivity|]); cbn;
        rewrite ?Hreq, <- ?app_assoc; cbn; reflexivity.
    + destruct sil; cbn; rewrite Hpost; cbn; eexists; (split; [reflexivity|]); done.
Qed.

End ActionFacts.

(** ** The segment list *)

Lemma sort_insert_perm {A} (cmp : A → A → Z) (x : A) (l : list A) :
  sort_insert cmp x l ≡ₚ x :: l.
Proof.
  induction l as [|y l IH]; simpl; [done|].
  destruct (cmp x y <=? 0); [done|]. rewrite IH. apply Permutation_swap.
Qed.

Lemma array_sort_perm {A} (cmp : A → A → Z) (l : list A) :
  array_sort cmp l ≡ₚ l.
Proof.
  induction l as [|x l IH]; simpl; [done|].
  by rewrite sort_insert_perm, IH.
Qed.

Lemma sort_insert_sorted (x : Segment) (l : list Segment) :
  StronglySorted le_sequence l →
  StronglySorted le_sequence (sort_insert by_sequence_number x l).
Proof.
  induction 1 as [|y l Hl IH Hy]; simpl.
  { repeat constructor. }
  unfold by_sequence_number at 1.
  destruct (Z.leb_spec (sequence_number x - sequence_number y) 0) as [Hle|Hgt].
  - constructor; [by constructor|].
    constructor; [unfold le_sequence; lia|].
    eapply Forall_impl; [exact Hy|]. unfold le_sequence. intros z Hz. lia.
  - constructor; [done|].
    rewrite sort_insert_perm. constructor; [unfold le_sequence; lia|done].
Qed.

(** The listing is ascending for every list of segments. *)
Lemma array_sort_sorted (l : list Segment) :
  StronglySorted le_sequence (array_sort by_sequence_number l).
Proof.
  induction l as [|x l IH]; simpl; [constructor|]. by apply sort_insert_sorted.
Qed.

Lemma sorted_distinct_strict (l : list Segment) :
  StronglySorted le_sequence l →
  NoDup (sequence_number <$> l) →
  StronglySorted lt_sequence l.
Proof.
  induction 1 as [|x l Hl IH Hx]; intros Hnd; [constructor|].
  rewrite fmap_cons in Hnd. apply NoDup_cons in Hnd as [Hx' Hnd].
  constructor; [by apply IH|].
  apply Forall_forall. intros y Hy.
  rewrite Forall_forall in Hx. specialize (Hx y Hy).
  unfold le_sequence, lt_sequence in *.
  assert (sequence_number x ≠ sequence_number y); [|lia].
  intros Heq. apply Hx'. rewrite Heq. by apply list_elem_of_fmap_2.
Qed.

Lemma sorted_lookup_lt {A} (R : A → A → Prop) (l : list A) (i j : nat) (a b : A) :
  StronglySorted R l → (i < j)%nat → l !! i = Some a → l !! j = Some b → R a b.
Proof.
  intros Hs. revert i j. induction Hs as [|x l Hl IH Hx]; intros i j Hij Ha Hb.
  { by rewrite lookup_nil in Ha. }
  destruct j as [|j]; [lia|]. simpl in Hb.
  destruct i as [|i]; simpl in Ha.
  - injection Ha as ->. rewrite Forall_forall in Hx.
    apply Hx. by eapply list_elem_of_lookup_2.
  - apply (IH i j); [lia|done..].
Qed.

(** C8. The segments of a story are listed in ascending order of sequence
    number: the listing holds exactly the segments of the story, and, the
    sequence numbers of a story being pairwise distinct, every segment
    listed earlier has a strictly smaller sequence number than every
    segment listed later. *)
Theorem listed_segments_strictly_increasing (story : Story) :
  NoDup (sequence_number <$> segments story) →
  listed_segments story ≡ₚ segments story
  ∧ StronglySorted lt_sequence (listed_segments story)
  ∧ ∀ i j a b, (i < j)%nat →
      listed_segments story !! i = Some a →
      listed_segments story !! j = Some b →
      sequence_number a < sequence_number b.
Proof.
  intros Hnd. unfold listed_segments.
  assert (StronglySorted lt_sequence
            (array_sort by_sequence_number (segments story))) as Hs.
  { apply sorted_distinct_strict; [apply array_sort_sorted|].
    by rewrite array_sort_perm. }
  split; [apply array_sort_perm|]. split; [done|].
  intros i j a b Hij Ha Hb.
  by eapply (sorted_lookup_lt lt_sequence).
Qed.

(** ** The sequence numbers the backend allocates *)

Lemma sequence_below_max (segs : list Segment) (seg : Segment) :
  seg ∈ segs → sequence_number seg ≤ foldr Z.max 0 (sequence_number <$> segs).
Proof.
  induction segs as [|y segs IH]; intros Hin; [by apply elem_of_nil in Hin|].
  rewrite fmap_cons. cbn [foldr].
  apply elem_of_cons in Hin as [->|Hin]; [apply Z.le_max_l|].
  etrans; [exact (IH Hin)|apply Z.le_max_r].
Qed.

Lemma next_sequence_above (segs : list Segment) (seg : Segment) :
  seg ∈ segs → sequence_number seg < Spec.next_sequence segs.
Proof.
  intros Hin. pose proof (sequence_below_max segs seg Hin) as Hle.
  unfold Spec.next_sequence. destruct segs; [by apply elem_of_nil in Hin|]. lia.
Qed.

Lemma increasing_fmap (f : Segment → Segment) (l : list Segment) :
  (∀ seg, sequence_number (f seg) = sequence_number seg) →
  StronglySorted lt_sequence l → StronglySorted lt_sequence (f <$> l).
Proof.
  intros Hf. induction 1 as [|x l Hl IH Hx]; simpl; constructor; [done|].
  apply Forall_fmap. eapply Forall_impl; [exact Hx|].
  intros y Hy. unfold lt_sequence in *. simpl. by rewrite !Hf.
Qed.

Lemma finish_sequence (st : Status) (video frame : option jsstring) (seg : Segment) :
  sequence_number (Spec.finish st video frame seg) = sequence_number seg.
Proof. unfold Spec.finish. by destruct (Spec.terminal _). Qed.

Lemma increasing_update (segId : SegId) (f : Segment → Segment) (sid : StoryId)
    (stories : gmap string Story) :
  (∀ seg, sequence_number (f seg) = sequence_number seg) →
  (∀ s story, stories !! s = Some story → StronglySorted lt_sequence (segments story)) →
  ∀ s story, alter (Spec.update_segment segId f) sid stories !! s = Some story →
             StronglySorted lt_sequence (segments story).
Proof.
  intros Hf Hinc s story. rewrite lookup_alter. case_decide as Heq; [|apply Hinc].
  subst s. destruct (stories !! sid) as [old|] eqn:Hold; simpl; [|done].
  intros [= <-]. simpl. apply increasing_fmap; [|by eapply Hinc].
  intros seg. by case_bool_decide.
Qed.

Section StoreInvariant.
Variable extract_last_frame : list N → option (list N).

(** Whatever is asked of the backend, the segments of every story stay in
    strictly increasing order of sequence number: a new segment gets a
    number above all the others, and no other operation changes a
    sequence number. *)
Lemma serve_increasing (cl : Spec.Call) (srv : Spec.Server) :
  Spec.increasing srv → Spec.increasing (Spec.serve extract_last_frame cl srv).
Proof.
  intros Hinc. destruct cl as [t d|sid|sid form|sid|op|sid g|op r]; simpl.
  - intros key story. simpl. rewrite lookup_insert. case_decide; [|apply Hinc].
    intros [= <-]. constructor.
  - unfold Spec.getStory. by destruct (Spec.srv_stories srv !! sid).
  - unfold Spec.addSegment.
    destruct (Spec.srv_stories srv !! sid) as [story|] eqn:Hsid; [|done].
    destruct (truthy (f_prompt form)); simpl; [|done].
    match goal with
    | |- context [match ?seed with Ok _ => _ | Rejected _ => _ end] =>
        destruct seed as [seedImage|e]; [|done]
    end.
    intros key story'. simpl. rewrite lookup_insert. case_decide; [|apply Hinc].
    intros [= <-]. simpl. apply StronglySorted_app_2; [|by eapply Hinc|repeat constructor].
    intros x y Hx Hy. apply list_elem_of_singleton in Hy as ->.
    unfold lt_sequence. simpl. by apply next_sequence_above.
  - unfold Spec.stitch.
    destruct (Spec.srv_stories srv !! sid) as [story|] eqn:Hsid; [|done].
    destruct (Spec.list_segments story); [done|].
    destruct (Spec.first_blocking _); [done|].
    destruct (Spec.fetch_all _ _); [|done].
    intros key story'. simpl. rewrite lookup_insert. case_decide; [|apply Hinc].
    intros [= <-]. simpl. by eapply Hinc.
  - unfold Spec.pollStatus.
    destruct (Spec.srv_operations srv !! op) as [[sid segId]|]; [|done].
    destruct (default _ _) as [|video|reason]; [done| |].
    + destruct (_ ≫= _) as [frame|]; intros key story' Hkey; simpl in Hkey;
        (eapply increasing_update; [apply finish_sequence|exact Hinc|exact Hkey]).
    + intros key story' Hkey. simpl in Hkey.
      eapply increasing_update; [apply finish_sequence|exact Hinc|exact Hkey].
  - unfold Spec.saveGeneration.
    destruct (Spec.srv_stories srv !! sid) as [story|] eqn:Hsid; [|done].
    intros key story'. simpl. rewrite lookup_alter. case_decide; [|apply Hinc].
    subst key. rewrite Hsid. intros [= <-]. simpl. by eapply Hinc.
  - done.
Qed.

Lemma reachable_increasing (srv : Spec.Server) :
  Spec.reachable extract_last_frame srv → Spec.increasing srv.
Proof.
  intros (blobs & calls & ->).
  induction calls as [|cl calls IH] using rev_ind.
  - intros sid story. simpl. by rewrite lookup_empty.
  - rewrite foldl_app. simpl. by apply serve_increasing.
Qed.

(** The story the backend serves to the page has distinct sequence
    numbers. *)
Lemma served_story_distinct (srv : Spec.Server) (sid : StoryId) (story : Story) :
  Spec.reachable extract_last_frame srv →
  (Spec.getStory sid srv).1 = Ok story →
  NoDup (sequence_number <$> segments story).
Proof.
  intros Hreach. unfold Spec.getStory.
  destruct (Spec.srv_stories srv !! sid) as [stored|] eqn:Hsid; [|done].
  simpl. intros [= <-]. simpl. unfold Spec.list_segments.
  rewrite array_sort_perm.
  pose proof (reachable_increasing srv Hreach sid stored Hsid) as Hs.
  induction Hs as [|x l Hl IH Hx]; simpl; constructor; [|done].
  intros Hin. apply list_elem_of_fmap in Hin as (y & Heq & Hy).
  rewrite Forall_forall in Hx. specialize (Hx y Hy). unfold lt_sequence in Hx. lia.
Qed.

End StoreInvariant.

(** The creator page, asked to generate a whole story of two scenes against
    the backend of the design: the first scene is submitted, the second is
    asked for with the previous frame while the first still generates, and
    is refused; the page gives up, with one segment and one poller. *)
Example whole_mode_stops_at_second_scene :
  let r := @handleCreateVideos _ (Spec.backend no_frame no_expansion) wizard_state
             whole (wizard_client, server_with []) in
  r.1 = Return None
  ∧ f_use_previous_frame <$> (omap (λ rq, match rq with
                                           | PostGenerate _ form => Some form
                                           | _ => None
                                           end) (requests r.2.1)) = [false; true]
  ∧ (λ s, status <$> segments s) <$> (Spec.srv_stories r.2.2 !! "story-1")
    = Some [generating]
  ∧ length (Spec.srv_submitted r.2.2) = 1%nat
  ∧ elements (activePolls r.2.1) = ["operation-7"].
Proof. by vm_compute. Qed.

(** ** Stitching *)

Lemma canStitch_true (cs : option Story) :
  canStitch cs = true ↔
    (∃ seg, seg ∈ completedSegments cs)
    ∧ truthy_opt (cs ≫= final_video_url) = false.
Proof.
  unfold canStitch. rewrite andb_true_iff, negb_true_iff.
  apply and_iff_compat_r.
  destruct (completedSegments cs) as [|seg l]; simpl.
  - split; [done|]. intros [seg Hseg]. by apply elem_of_nil in Hseg.
  - split; [|done]. intros _. exists seg. apply list_elem_of_here.
Qed.

(** The first blocking segment is a segment of the story that is not
    completed, and every segment with a smaller sequence number is. *)
Lemma first_blocking_first (story : Story) (b : Segment) :
  Spec.first_blocking (Spec.list_segments story) = Some b →
  b ∈ segments story
  ∧ status b ≠ completed
  ∧ ∀ s, s ∈ segments story → sequence_number s < sequence_number b →
         status s = completed.
Proof.
  unfold Spec.first_blocking, Spec.list_segments. intros Hfind.
  destruct (list_find _ _) as [[i b']|] eqn:Hf; [|done].
  simpl in Hfind. injection Hfind as ->.
  apply list_find_Some in Hf as (Hi & Hb & Hbefore).
  split; [|split; [done|]].
  { rewrite <- (array_sort_perm by_sequence_number). by eapply list_elem_of_lookup_2. }
  intros s Hs Hlt.
  rewrite <- (array_sort_perm by_sequence_number) in Hs.
  apply list_elem_of_lookup_1 in Hs as [j Hj].
  destruct (decide (j < i)%nat) as [Hji|Hji].
  { destruct (decide (status s = completed)) as [|Hne]; [done|].
    by destruct (Hbefore j s Hj Hji). }
  destruct (decide (j = i)) as [->|Hne].
  { rewrite Hi in Hj. injection Hj as ->. lia. }
  assert (le_sequence b s); [|unfold le_sequence in *; lia].
  eapply (sorted_lookup_lt le_sequence); [apply array_sort_sorted| |done..]. lia.
Qed.

Lemma first_blocking_is_Some (story : Story) (seg : Segment) :
  seg ∈ segments story → status seg ≠ completed →
  is_Some (Spec.first_blocking (Spec.list_segments story)).
Proof.
  intros Hseg Hst. unfold Spec.first_blocking, Spec.list_segments.
  apply fmap_is_Some. eapply list_find_elem_of; [|exact Hst].
  by rewrite array_sort_perm.
Qed.

Lemma first_blocking_None (story : Story) :
  Forall (λ seg, status seg = completed) (segments story) →
  Spec.first_blocking (Spec.list_segments story) = None.
Proof.
  intros Hall. unfold Spec.first_blocking, Spec.list_segments.
  apply fmap_None, list_find_None.
  rewrite array_sort_perm. eapply Forall_impl; [exact Hall|]. naive_solver.
Qed.

(** A stitch request on a story with an unfinished segment is refused and
    leaves the backend as it was. *)
Lemma stitch_not_ready (srv : Spec.Server) (sid : StoryId) (story : Story)
    (seg : Segment) :
  Spec.srv_stories srv !! sid = Some story →
  seg ∈ segments story → status seg ≠ completed →
  ∃ b, Spec.first_blocking (Spec.list_segments story) = Some b
       ∧ Spec.stitch sid srv = (Spec.rejected (NotReady (seg_id b)), srv).
Proof.
  intros Hsid Hseg Hst.
  destruct (first_blocking_is_Some story seg Hseg Hst) as [b Hb].
  exists b. split; [done|]. unfold Spec.stitch. rewrite Hsid.
  destruct (Spec.list_segments story) as [|x l] eqn:Hl.
  { discriminate Hb. }
  by rewrite Hb.
Qed.

Section StitchClient.
Variable extract_last_frame : list N → option (list N).
Variable expand_story : jsstring → Z → Z → Response StoryGeneration.
Local Existing Instance Spec.backend.
Let backend_of := Spec.backend extract_last_frame expand_story.
Local Existing Instance backend_of.

(** C1. Stitching a story that holds a segment which is failed or has not
    reached a terminal state is refused. The error is [NotReady] and names
    the first blocking segment: a segment of the story that is not
    completed while every segment with a smaller sequence number is. The
    backend is left as it was, so the final artifact of the story is
    untouched, and the client keeps the story it was showing. *)
Theorem stitch_refuses_unfinished (rendered : State) (c : Client)
    (srv : Spec.Server) (sid : StoryId) (story : Story) :
  Spec.srv_stories srv !! sid = Some story →
  (∃ seg, seg ∈ segments story ∧ status seg ≠ completed) →
  ∃ b e c',
    stitchStory rendered sid (c, srv) = (Throw e, (c', srv))
    ∧ kind e = Some (NotReady (seg_id b))
    ∧ b ∈ segments story
    ∧ status b ≠ completed
    ∧ (∀ s, s ∈ segments story → sequence_number s < sequence_number b →
            status s = completed)
    ∧ currentStory (state c') = currentStory (state c)
    ∧ requests c' = requests c ++ [PostStitch sid].
Proof.
  intros Hsid (seg & Hseg & Hst).
  destruct (stitch_not_ready srv sid story seg Hsid Hseg Hst) as (b & Hb & Hstitch).
  destruct (first_blocking_first story b Hb) as (Hin & Hnc & Hfirst).
  exists b. unfold stitchStory. act_unfold. cbn. rewrite Hstitch. cbn.
  eexists _, _. by repeat split.
Qed.

End StitchClient.

Lemma new_location_fresh (blobs : gmap (list N) (list N)) :
  blobs !! Spec.new_location blobs = None ∧ Spec.new_location blobs ≠ [].
Proof.
  pose proof (is_fresh ({[ [] ]} ∪ dom blobs)) as Hfresh.
  fold (Spec.new_location blobs) in Hfresh.
  split; [apply not_elem_of_dom|]; set_solver.
Qed.

Lemma fetch_all_insert (blobs : gmap (list N) (list N)) (segs : list Segment)
    (videos : list (list N)) (loc v : list N) :
  Spec.fetch_all blobs segs = Some videos →
  blobs !! loc = None →
  Spec.fetch_all (<[loc := v]> blobs) segs = Some videos.
Proof.
  unfold Spec.fetch_all. rewrite !mapM_Some. intros Hall Hloc.
  eapply Forall2_impl; [exact Hall|]. intros seg bytes Hseg. simpl in *.
  destruct (video_url seg) as [l|]; [|done]. simpl in *.
  rewrite lookup_insert_ne; [done|]. congruence.
Qed.

(** A stitch request on a story whose segments are all completed and
    fetchable succeeds: the concatenation is stored at a new location and
    that location becomes the final artifact of the story. *)
Lemma stitch_ok (srv : Spec.Server) (sid : StoryId) (story : Story)
    (videos : list (list N)) :
  Spec.srv_stories srv !! sid = Some story →
  segments story ≠ [] →
  Forall (λ seg, status seg = completed) (segments story) →
  Spec.fetch_all (Spec.srv_blobs srv) (Spec.list_segments story) = Some videos →
  let loc := Spec.new_location (Spec.srv_blobs srv) in
  Spec.stitch sid srv =
    (Ok {| sr_final_video_url := loc |},
     {| Spec.srv_stories := <[sid := Spec.set_final loc story]> (Spec.srv_stories srv);
        Spec.srv_blobs := <[loc := concat videos]> (Spec.srv_blobs srv);
        Spec.srv_operations := Spec.srv_operations srv;
        Spec.srv_remote := Spec.srv_remote srv;
        Spec.srv_submitted := Spec.srv_submitted srv;
        Spec.srv_next := Spec.srv_next srv |}).
Proof.
  intros Hsid Hne Hall Hfetch loc. unfold Spec.stitch. rewrite Hsid.
  rewrite (first_blocking_None story Hall), Hfetch.
  destruct (Spec.list_segments story) as [|x l] eqn:Hl; [|done].
  exfalso. apply Hne.
  pose proof (array_sort_perm by_sequence_number (segments story)) as Hperm.
  unfold Spec.list_segments in Hl. rewrite Hl in Hperm.
  by apply Permutation_nil_l in Hperm.
Qed.

(** C3. Stitching is idempotent and overwriting at the backend: on a story
    whose segments are all completed, a stitch succeeds, a second stitch on
    the unchanged segments succeeds as well and stores an artifact of the
    same content, the concatenation of the segment videos in listing order,
    and the story then points at the second artifact alone. The story page
    is another matter: it offers stitching exactly while some segment is
    completed and the story has no final video, so after either stitch the
    page no longer offers it. *)
Theorem restitch_overwrites_but_page_hides_it (srv : Spec.Server)
    (sid : StoryId) (story : Story) (videos : list (list N))
    (cs : option Story) :
  Spec.srv_stories srv !! sid = Some story →
  segments story ≠ [] →
  Forall (λ seg, status seg = completed) (segments story) →
  Spec.fetch_all (Spec.srv_blobs srv) (Spec.list_segments story) = Some videos →
  (canStitch cs = true ↔
     (∃ seg, seg ∈ completedSegments cs)
     ∧ truthy_opt (cs ≫= final_video_url) = false)
  ∧ ∃ loc1 srv1 story1 loc2 srv2 story2,
      Spec.stitch sid srv = (Ok {| sr_final_video_url := loc1 |}, srv1)
      ∧ Spec.srv_stories srv1 !! sid = Some story1
      ∧ final_video_url story1 = Some loc1
      ∧ Spec.srv_blobs srv1 !! loc1 = Some (concat videos)
      ∧ Spec.stitch sid srv1 = (Ok {| sr_final_video_url := loc2 |}, srv2)
      ∧ Spec.srv_stories srv2 !! sid = Some story2
      ∧ final_video_url story2 = Some loc2
      ∧ Spec.srv_blobs srv2 !! loc2 = Some (concat videos)
      ∧ segments story2 = segments story
      ∧ canStitch (Some story1) = false
      ∧ canStitch (Some story2) = false.
Proof.
  intros Hsid Hne Hall Hfetch. split; [apply canStitch_true|].
  pose proof (stitch_ok srv sid story videos Hsid Hne Hall Hfetch) as H1.
  cbv zeta in H1.
  set (loc1 := Spec.new_location (Spec.srv_blobs srv)) in *.
  destruct (new_location_fresh (Spec.srv_blobs srv)) as [Hfresh1 Hne1].
  fold loc1 in Hfresh1, Hne1.
  set (story1 := Spec.set_final loc1 story).
  match type of H1 with _ = (_, ?s) => set (srv1 := s) in * end.
  assert (Spec.srv_stories srv1 !! sid = Some story1) as Hsid1.
  { simpl. by rewrite lookup_insert_eq. }
  assert (Spec.fetch_all (Spec.srv_blobs srv1) (Spec.list_segments story1)
          = Some videos) as Hfetch1.
  { simpl. by apply fetch_all_insert. }
  pose proof (stitch_ok srv1 sid story1 videos Hsid1 Hne Hall Hfetch1) as H2.
  cbv zeta in H2.
  set (loc2 := Spec.new_location (Spec.srv_blobs srv1)) in *.
  destruct (new_location_fresh (Spec.srv_blobs srv1)) as [_ Hne2].
  fold loc2 in Hne2.
  match type of H2 with _ = (_, ?s) => set (srv2 := s) in * end.
  exists loc1, srv1, story1, loc2, srv2, (Spec.set_final loc2 story1).
  split; [done|]. split; [done|]. split; [done|].
  split. { simpl. by rewrite lookup_insert_eq. }
  split; [done|].
  split. { simpl. by rewrite lookup_insert_eq. }
  split; [done|].
  split. { simpl. by rewrite lookup_insert_eq. }
  split; [done|].
  unfold canStitch. simpl.
  apply truthy_nonempty in Hne1 as ->. apply truthy_nonempty in Hne2 as ->.
  by rewrite !andb_false_r.
Qed.

(** ** Adding a segment *)

Lemma trim_nonempty (s : jsstring) : trim s ≠ [] → truthy s = true.
Proof. destruct s; [done|]. done. Qed.

Lemma addSegment_no_prior (srv : Spec.Server) (sid : StoryId) (story : Story)
    (form : GenerateForm) :
  Spec.srv_stories srv !! sid = Some story →
  segments story = [] →
  truthy (f_prompt form) = true →
  f_use_previous_frame form = true →
  Spec.addSegment sid form srv = (Spec.rejected NoPriorSegment, srv).
Proof.
  intros Hsid Hnil Hp Hu. unfold Spec.addSegment, Spec.list_segments.
  by rewrite Hsid, Hp, Hu, Hnil.
Qed.

Lemma addSegment_prior_unfinished (srv : Spec.Server) (sid : StoryId)
    (story : Story) (prior : Segment) (form : GenerateForm) :
  Spec.srv_stories srv !! sid = Some story →
  last (Spec.list_segments story) = Some prior →
  status prior ≠ completed →
  f_use_previous_frame form = true →
  Spec.addSegment sid form srv = (Spec.rejected ValidationError, srv).
Proof.
  intros Hsid Hlast Hst Hu. unfold Spec.addSegment.
  rewrite Hsid, Hu, Hlast. destruct (truthy (f_prompt form)); simpl; [|done].
  by rewrite bool_decide_eq_false_2.
Qed.

Section AddSegmentClient.
Variable extract_last_frame : list N → option (list N).
Variable expand_story : jsstring → Z → Z → Response StoryGeneration.
Let backend_of := Spec.backend extract_last_frame expand_story.
Local Existing Instance backend_of.

(** C2. A segment that continues from the previous frame is refused while
    the most recent segment of the story, the one with the highest sequence
    number, is not completed. The request for it is rejected with a
    validation error, which [generateVideoSegment] throws on; the backend
    is left as it was, so no segment is appended and nothing is submitted
    to the generation service, and the client starts no poller. *)
Theorem continuation_refused_until_completed (rendered : State) (c : Client)
    (srv : Spec.Server) (sid : StoryId) (story : Story) (prior : Segment)
    (prompt : jsstring) (image : option jsstring) (options : GenerateOptions) :
  Spec.srv_stories srv !! sid = Some story →
  last (Spec.list_segments story) = Some prior →
  status prior ≠ completed →
  ∃ e c',
    generateVideoSegment rendered sid prompt image true options (c, srv)
      = (Throw e, (c', srv))
    ∧ kind e = Some ValidationError
    ∧ activePolls c' = activePolls c
    ∧ intervals c' = intervals c
    ∧ timeouts c' = timeouts c
    ∧ requests c' = requests c ++
        [PostGenerate sid {| f_prompt := prompt; f_use_previous_frame := true;
                             f_target_sequence := targetSequence options;
                             f_image := image |}].
Proof.
  intros Hsid Hlast Hst.
  pose proof (addSegment_prior_unfinished srv sid story prior
    {| f_prompt := prompt; f_use_previous_frame := true;
       f_target_sequence := targetSequence options; f_image := image |}
    Hsid Hlast Hst eq_refl) as Hadd.
  unfold generateVideoSegment. act_unfold.
  destruct (silent options); cbn; rewrite Hadd; cbn;
    eexists _, _; by repeat split.
Qed.

(** C5. On a story without segments, a segment requested with the previous
    frame fails with [NoPriorSegment]. The add-segment form of the story
    page always asks for the previous frame; its request is rejected with
    that error, the handler reports the failure and leaves the form as it
    was, and the backend is left as it was: no segment is appended and
    nothing is submitted to the generation service. *)
Theorem first_segment_from_previous_frame_fails (rendered : State) (c : Client)
    (srv : Spec.Server) (sid : StoryId) (story : Story) (page : ViewPage) :
  Spec.srv_stories srv !! sid = Some story →
  segments story = [] →
  trim (newPrompt page) ≠ [] →
  (∃ e c',
     generateVideoSegment rendered sid (newPrompt page) None true no_options (c, srv)
       = (Throw e, (c', srv))
     ∧ kind e = Some NoPriorSegment)
  ∧ ∃ c',
      handleAddSegment rendered sid page (c, srv) = (Return page, (c', srv))
      ∧ requests c' = requests c ++
          [PostGenerate sid {| f_prompt := newPrompt page;
                               f_use_previous_frame := true;
                               f_target_sequence := None; f_image := None |}]
      ∧ error (state c') = Some (js "Failed to start video generation")
      ∧ activePolls c' = activePolls c
      ∧ intervals c' = intervals c.
Proof.
  intros Hsid Hnil Htrim.
  pose proof (trim_nonempty _ Htrim) as Hp.
  assert (Spec.addSegment sid
            {| f_prompt := newPrompt page; f_use_previous_frame := true;
               f_target_sequence := None; f_image := None |} srv
          = (Spec.rejected NoPriorSegment, srv)) as Hadd.
  { by apply (addSegment_no_prior srv sid story). }
  split.
  - unfold generateVideoSegment. act_unfold. cbn. rewrite Hadd. cbn.
    eexists _, _. by split.
  - unfold handleAddSegment. apply truthy_nonempty in Htrim as ->. cbn [negb].
    unfold generateVideoSegment. act_unfold. cbn. rewrite Hadd. cbn.
    eexists. by repeat split.
Qed.

End AddSegmentClient.

(** ** Polling *)

Lemma startStatusPolling_active (rendered : State) (op : OpId) (c : Client) :
  op ∈ activePolls c → startStatusPolling rendered op c = c.
Proof. intros Hin. unfold startStatusPolling. by rewrite bool_decide_eq_true_2. Qed.

Lemma startStatusPolling_fresh (rendered : State) (op : OpId) (c : Client) :
  op ∉ activePolls c →
  activePolls (startStatusPolling rendered op c) = {[op]} ∪ activePolls c
  ∧ intervals (startStatusPolling rendered op c)
    = <[next_timer c := {| p_operationId := op; p_state := rendered;
                           p_every_ms := 15000 |}]> (intervals c)
  ∧ timeouts (startStatusPolling rendered op c)
    = <[S (next_timer c) := {| c_pollInterval := next_timer c;
                               c_operationId := op;
                               c_after_ms := 600000 |}]> (timeouts c).
Proof. intros Hin. unfold startStatusPolling. by rewrite bool_decide_eq_false_2. Qed.

(** The operations [resumePollingForStory] starts pollers for. *)
Lemma resumable_spec (story : Story) (op : OpId) :
  op ∈ resumable story ↔
    ∃ seg, seg ∈ segments story
           ∧ (status seg = generating ∨ status seg = publishing)
           ∧ operation_id seg = Some op ∧ op ≠ "".
Proof.
  unfold resumable. rewrite list_elem_of_omap. split.
  - intros (seg & Hseg & Hop). apply list_elem_of_filter in Hseg as [Hp Hseg].
    exists seg. unfold in_progress in Hp.
    apply andb_true_iff in Hp as [Hst Hid]. apply orb_true_iff in Hst.
    rewrite !bool_decide_eq_true in Hst. rewrite Hop in Hid.
    repeat split; [done..|]. by intros ->.
  - intros (seg & Hseg & Hst & Hop & Hne). exists seg. split; [|done].
    apply list_elem_of_filter. split; [|done]. unfold in_progress.
    rewrite Hop. apply andb_true_iff. split.
    + apply orb_true_iff. rewrite !bool_decide_eq_true. done.
    + by destruct op.
Qed.

Section PollingFacts.
Context {B : Type} `{!Backend B}.

(** C4. Polling is bounded. A poller that is started comes with a timeout
    of 600000 ms, ten minutes; when that timeout fires, in whatever state
    the client then is, the interval of the poller is cleared, so that it
    polls no more, and the operation leaves the set of active polls.
    Nothing else happens: the stories and the recorded generation statuses,
    the toasts and the requests are as before and the backend is not
    contacted, so no segment is marked failed. *)
Theorem polling_stops_at_cap (rendered : State) (op : OpId) (c c2 : Client)
    (b2 : B) :
  op ∉ activePolls c →
  let h := next_timer c in
  let cap := {| c_pollInterval := h; c_operationId := op; c_after_ms := 600000 |} in
  timeouts c2 !! (S h) = Some cap →
  let c1 := startStatusPolling rendered op c in
  let w' := step (TimeoutFires (S h)) (c2, b2) in
  (op ∈ activePolls c1
   ∧ intervals c1 !! h
     = Some {| p_operationId := op; p_state := rendered; p_every_ms := 15000 |}
   ∧ timeouts c1 !! (S h) = Some cap)
  ∧ intervals w'.1 !! h = None
  ∧ (op ∉ activePolls w'.1)
  ∧ timeouts w'.1 !! (S h) = None
  ∧ step (IntervalFires h) w' = w'
  ∧ state w'.1 = state c2
  ∧ toasts w'.1 = toasts c2
  ∧ requests w'.1 = requests c2
  ∧ w'.2 = b2.
Proof.
  intros Hfresh h cap Hcap c1 w'.
  destruct (startStatusPolling_fresh rendered op c Hfresh) as (Hap & Hiv & Htm).
  split.
  { subst c1. split.
    { rewrite Hap. apply elem_of_union. left. by apply elem_of_singleton. }
    split; [by rewrite Hiv, lookup_insert_eq|by rewrite Htm, lookup_insert_eq]. }
  assert (w' = (stop_polling h op (forget_timeout (S h) c2), b2)) as ->.
  { subst w'. unfold step. cbn [fst snd]. by rewrite Hcap. }
  cbn [fst snd].
  split; [apply lookup_delete_eq|]. split.
  { cbn. apply not_elem_of_difference. right. by apply elem_of_singleton. }
  split; [apply lookup_delete_eq|].
  split; [|done]. unfold step. cbn. by rewrite lookup_delete_eq.
Qed.

(** What a status poll leaves in [generationStatus]: the payload of the
    backend under the operation id, and nothing else changed. *)
Lemma poll_callback_status (h : nat) (p : Poller) (w : Client * B) (st : GenStatus) :
  (get_generation_status (p_operationId p) w.2).1 = Ok st →
  generationStatus (state (poll_callback h p w).2.1)
  = <[p_operationId p := st]> (generationStatus (state w.1)).
Proof.
  destruct w as [c b]. cbn [fst snd]. intros Hget.
  unfold poll_callback. act_unfold. cbn. rewrite Hget. cbn.
  destruct (gs_status st); cbn; try done.
  destruct (currentStory (p_state p)) as [story|]; cbn; [|done].
  destruct (truthy_id (gs_segment_id st)); cbn; [|done].
  by rewrite (proj2 (loadStory_frame _ _ _)).
Qed.

End PollingFacts.

(** The percentage the status effect records for a card, given the status
    [st] of its operation. *)
Lemma status_effect_entry_progress (now : Z) (gs : gmap string GenStatus)
    (story : option Story) (page : CreatorPage) (sceneId : SceneId)
    (opId : OpId) (st : GenStatus) :
  gs !! opId = Some st →
  let page' := status_effect_entry now gs story page (sceneId, opId) in
  match gs_status st with
  | completed => sceneProgressById page' !! sceneId = Some 100
  | generating | publishing =>
      sceneProgressById page' !! sceneId
      = Some (Z.min 90 (shown_progress page sceneId + 12))
  | pending | failed => sceneProgressById page' = sceneProgressById page
  end.
Proof.
  intros Hst. unfold status_effect_entry, shown_progress. cbn. rewrite Hst.
  destruct (gs_status st); cbn; rewrite ?lookup_insert_eq; try done.
  all: by destruct (sceneProgressById page !! sceneId) as [[| |]|].
Qed.

Section StatusReporting.
Context {B : Type} `{!Backend B}.

(** C6. A status poll records the payload of the backend as it is, under
    the operation id, and adds nothing to it; the status in it is one of
    the five segment statuses. The percentage of a storyboard card is made
    up by the creator page from what it sees there: 100 once the status is
    [completed], and while it is [generating] or [publishing] twelve more
    than what the card showed, up to 90, each time the effect runs. *)
Theorem status_recorded_as_is_progress_made_up (h : nat) (p : Poller)
    (w : Client * B) (st : GenStatus) (now : Z) (story : option Story)
    (page : CreatorPage) (sceneId : SceneId) :
  (get_generation_status (p_operationId p) w.2).1 = Ok st →
  let recorded := generationStatus (state (poll_callback h p w).2.1) in
  let page' := status_effect_entry now recorded story page (sceneId, p_operationId p) in
  recorded = <[p_operationId p := st]> (generationStatus (state w.1))
  ∧ match gs_status st with
    | completed => sceneProgressById page' !! sceneId = Some 100
    | generating | publishing =>
        sceneProgressById page' !! sceneId
        = Some (Z.min 90 (shown_progress page sceneId + 12))
    | pending | failed => sceneProgressById page' = sceneProgressById page
    end.
Proof.
  intros Hget recorded page'.
  assert (recorded = <[p_operationId p := st]> (generationStatus (state w.1))) as Hrec.
  { by apply poll_callback_status. }
  split; [done|].
  apply status_effect_entry_progress. rewrite Hrec. apply lookup_insert_eq.
Qed.

End StatusReporting.

(** ** Concrete runs *)

(** A story with two completed segments is stitched from the story page.
    Before, the page offers the stitch; the stitch succeeds and the story
    is reloaded with its final video; after that, with the same two
    completed segments, the page no longer offers to stitch. *)
Lemma restitch_not_offered :
  let before := story_of [completed_1; completed_2] None in
  let r := @stitchStory _ (Spec.backend no_frame no_expansion) initialState
             "story-1" (initialClient, server_with [completed_1; completed_2]) in
  let after := currentStory (state r.2.1) in
  canStitch (Some before) = true
  ∧ (∃ data, r.1 = Return data)
  ∧ completedSegments after = [completed_1; completed_2]
  ∧ canStitch after = false.
Proof.
  split; [by vm_compute|]. split; [eexists; by vm_compute|]. by vm_compute.
Qed.

(** A poll that reaches the ten-minute cap while the operation is still
    generating: polling has stopped, and the segment is not marked failed,
    neither in the story nor in the recorded status of the operation, and
    the last request was an ordinary status poll. *)
Lemma cap_marks_nothing_failed :
  let w := run polled_until_cap (initialClient, slow_backend) in
  map_to_list (intervals w.1) = []
  ∧ elements (activePolls w.1) = []
  ∧ status <$> default [] (segments <$> currentStory (state w.1)) = [generating]
  ∧ gs_status <$> (generationStatus (state w.1) !! "op-1") = Some generating
  ∧ (gs_error <$> (generationStatus (state w.1) !! "op-1")) = Some None
  ∧ error (state w.1) = None
  ∧ last (requests w.1) = Some (GetGenerationStatus "op-1").
Proof. by vm_compute. Qed.

(** Two polls that both find the operation generating: the status reported
    is [generating], which is none of pending, completed and failed, and
    the card shows 22 per cent after the first poll and 34 after the
    second. *)
Lemma progress_counts_polls :
  let after_one := watch [CallLoadStory "story-1"; IntervalFires 0] in
  let after_two := watch [CallLoadStory "story-1"; IntervalFires 0; IntervalFires 0] in
  gs_status <$> (generationStatus (state after_one.1.1) !! "op-1") = Some generating
  ∧ gs_status <$> (generationStatus (state after_two.1.1) !! "op-1") = Some generating
  ∧ shown_progress after_one.2 "scene-1" = 22
  ∧ shown_progress after_two.2 "scene-1" = 34.
Proof. by vm_compute. Qed.

(** C9. Two pollers for one operation. The first poller of the operation
    ends on a failed poll and a second one is started by a reload; the
    timeout of the first then removes the operation from the set of active
    polls although the second poller is still running, and the next reload
    starts a third: intervals 2 and 4 both poll operation "op-1". *)
Theorem stale_cap_lets_second_poller_start :
  let before := run (take 41 reloaded_after_stale_cap) (initialClient, flaky_backend) in
  let stale := run (take 42 reloaded_after_stale_cap) (initialClient, flaky_backend) in
  let w := run reloaded_after_stale_cap (initialClient, flaky_backend) in
  (elements (activePolls before.1) = ["op-1"]
   ∧ pollers_of "op-1" before.1 = [2%nat])
  ∧ (elements (activePolls stale.1) = []
     ∧ pollers_of "op-1" stale.1 = [2%nat])
  ∧ p_operationId <$> (intervals w.1 !! 2%nat) = Some "op-1"
  ∧ p_operationId <$> (intervals w.1 !! 4%nat) = Some "op-1"
  ∧ length (pollers_of "op-1" w.1) = 2%nat.
Proof. by vm_compute. Qed.

(** ** The theorems at concrete inputs *)

Lemma listed_segments_strictly_increasing_witness :
  let story := story_of [failed_3; completed_1; completed_2] None in
  NoDup (sequence_number <$> segments story)
  ∧ listed_segments story ≡ₚ segments story
  ∧ StronglySorted lt_sequence (listed_segments story)
  ∧ ∀ i j a b, (i < j)%nat →
      listed_segments story !! i = Some a →
      listed_segments story !! j = Some b →
      sequence_number a < sequence_number b.
Proof.
  intros story.
  assert (NoDup (sequence_number <$> segments story)) as Hnd.
  { apply (bool_decide_unpack _). vm_compute. exact I. }
  split; [exact Hnd|].
  exact (listed_segments_strictly_increasing story Hnd).
Defined.

Lemma stitch_refuses_unfinished_witness :
  let story := story_of [completed_1; completed_2; failed_3] None in
  let srv := server_with [completed_1; completed_2; failed_3] in
  Spec.srv_stories srv !! "story-1" = Some story
  ∧ (∃ seg, seg ∈ segments story ∧ status seg ≠ completed)
  ∧ ∃ b e c',
      @stitchStory _ (Spec.backend no_frame no_expansion) initialState "story-1"
        (initialClient, srv)
        = (Throw e, (c', srv))
      ∧ kind e = Some (NotReady (seg_id b))
      ∧ b ∈ segments story
      ∧ status b ≠ completed
      ∧ (∀ s, s ∈ segments story → sequence_number s < sequence_number b →
              status s = completed)
      ∧ currentStory (state c') = currentStory (state initialClient)
      ∧ requests c' = requests initialClient ++ [PostStitch "story-1"].
Proof.
  intros story srv.
  assert (Spec.srv_stories srv !! "story-1" = Some story) as H1.
  { vm_compute. reflexivity. }
  assert (∃ seg, seg ∈ segments story ∧ status seg ≠ completed) as H2.
  { exists failed_3. split; [|discriminate].
    simpl. do 2 apply list_elem_of_further. apply list_elem_of_here. }
  split; [exact H1|]. split; [exact H2|].
  exact (stitch_refuses_unfinished no_frame no_expansion initialState
           initialClient srv "story-1" story H1 H2).
Defined.

Lemma continuation_refused_until_completed_witness :
  let story := story_of [completed_1; generating_2] None in
  let srv := server_with [completed_1; generating_2] in
  Spec.srv_stories srv !! "story-1" = Some story
  ∧ last (Spec.list_segments story) = Some generating_2
  ∧ status generating_2 ≠ completed
  ∧ ∃ e c',
      @generateVideoSegment _ (Spec.backend no_frame no_expansion) initialState
        "story-1" (js "what happens next") None true no_options (initialClient, srv)
        = (Throw e, (c', srv))
      ∧ kind e = Some ValidationError
      ∧ activePolls c' = activePolls initialClient
      ∧ intervals c' = intervals initialClient
      ∧ timeouts c' = timeouts initialClient
      ∧ requests c' = requests initialClient ++
          [PostGenerate "story-1"
             {| f_prompt := js "what happens next"; f_use_previous_frame := true;
                f_target_sequence := targetSequence no_options; f_image := None |}].
Proof.
  intros story srv.
  assert (Spec.srv_stories srv !! "story-1" = Some story) as H1.
  { vm_compute. reflexivity. }
  assert (last (Spec.list_segments story) = Some generating_2) as H2.
  { vm_compute. reflexivity. }
  assert (status generating_2 ≠ completed) as H3.
  { discriminate. }
  split; [exact H1|]. split; [exact H2|]. split; [exact H3|].
  exact (continuation_refused_until_completed no_frame no_expansion initialState
           initialClient srv "story-1" story generating_2 (js "what happens next")
           None no_options H1 H2 H3).
Defined.

Lemma restitch_overwrites_but_page_hides_it_witness :
  let story := story_of [completed_2; completed_1] None in
  let srv := server_with [completed_2; completed_1] in
  let videos := [[1; 2; 3]; [4; 5]]%N in
  Spec.srv_stories srv !! "story-1" = Some story
  ∧ segments story ≠ []
  ∧ Forall (λ seg, status seg = completed) (segments story)
  ∧ Spec.fetch_all (Spec.srv_blobs srv) (Spec.list_segments story) = Some videos
  ∧ ∃ loc1 srv1 story1 loc2 srv2 story2,
      Spec.stitch "story-1" srv = (Ok {| sr_final_video_url := loc1 |}, srv1)
      ∧ Spec.srv_stories srv1 !! "story-1" = Some story1
      ∧ final_video_url story1 = Some loc1
      ∧ Spec.srv_blobs srv1 !! loc1 = Some [1; 2; 3; 4; 5]%N
      ∧ Spec.stitch "story-1" srv1 = (Ok {| sr_final_video_url := loc2 |}, srv2)
      ∧ Spec.srv_stories srv2 !! "story-1" = Some story2
      ∧ final_video_url story2 = Some loc2
      ∧ Spec.srv_blobs srv2 !! loc2 = Some [1; 2; 3; 4; 5]%N
      ∧ segments story2 = segments story
      ∧ canStitch (Some story1) = false
      ∧ canStitch (Some story2) = false.
Proof.
  intros story srv videos.
  assert (Spec.srv_stories srv !! "story-1" = Some story) as H1.
  { vm_compute. reflexivity. }
  assert (segments story ≠ []) as H2.
  { discriminate. }
  assert (Forall (λ seg, status seg = completed) (segments story)) as H3.
  { repeat constructor. }
  assert (Spec.fetch_all (Spec.srv_blobs srv) (Spec.list_segments story)
          = Some videos) as H4.
  { vm_compute. reflexivity. }
  split; [exact H1|]. split; [exact H2|]. split; [exact H3|]. split; [exact H4|].
  exact (proj2 (restitch_overwrites_but_page_hides_it srv "story-1" story videos
                  None H1 H2 H3 H4)).
Defined.

Lemma polling_stops_at_cap_witness :
  let c1 := startStatusPolling initialState "op-1" initialClient in
  let cap := {| c_pollInterval := 0; c_operationId := "op-1"; c_after_ms := 600000 |} in
  let w' := step (TimeoutFires 1) (c1, slow_backend) in
("op-1" ∉ activePolls initialClient)
  ∧ timeouts c1 !! 1%nat = Some cap
  ∧ intervals w'.1 !! 0%nat = None
  ∧ ("op-1" ∉ activePolls w'.1)
  ∧ state w'.1 = state c1
  ∧ requests w'.1 = requests c1.
Proof.
  intros c1 cap w'.
  assert ("op-1" ∉ activePolls initialClient) as H1.
  { apply not_elem_of_empty. }
  assert (timeouts c1 !! 1%nat = Some cap) as H2.
  { vm_compute. reflexivity. }
  pose proof (polling_stops_at_cap initialState "op-1" initialClient c1
                slow_backend H1 H2) as H.
  split; [exact H1|]. split; [exact H2|].
  split; [exact (proj1 (proj2 H))|].
  split; [exact (proj1 (proj2 (proj2 H)))|].
  split; [exact (proj1 (proj2 (proj2 (proj2 (proj2 (proj2 H))))))|].
  exact (proj1 (proj2 (proj2 (proj2 (proj2 (proj2 (proj2 (proj2 H)))))))).
Defined.

Lemma first_segment_from_previous_frame_fails_witness :
  let story := story_of [] None in
  let srv := server_with [] in
  let page := {| newPrompt := js "a first scene"; showAddSegment := true;
                 isStitching := false |} in
  Spec.srv_stories srv !! "story-1" = Some story
  ∧ segments story = []
  ∧ trim (newPrompt page) ≠ []
  ∧ ∃ c',
      @handleAddSegment _ (Spec.backend no_frame no_expansion) initialState
        "story-1" page (initialClient, srv) = (Return page, (c', srv))
      ∧ requests c' = requests initialClient ++
          [PostGenerate "story-1"
             {| f_prompt := newPrompt page; f_use_previous_frame := true;
                f_target_sequence := None; f_image := None |}]
      ∧ error (state c') = Some (js "Failed to start video generation")
      ∧ activePolls c' = activePolls initialClient
      ∧ intervals c' = intervals initialClient.
Proof.
  intros story srv page.
  assert (Spec.srv_stories srv !! "story-1" = Some story) as H1.
  { vm_compute. reflexivity. }
  assert (segments story = []) as H2.
  { reflexivity. }
  assert (trim (newPrompt page) ≠ []) as H3.
  { vm_compute. discriminate. }
  split; [exact H1|]. split; [exact H2|]. split; [exact H3|].
  exact (proj2 (first_segment_from_previous_frame_fails no_frame no_expansion
                  initialState initialClient srv "story-1" story page H1 H2 H3)).
Defined.

Lemma status_recorded_as_is_progress_made_up_witness :
  let w := run [CallLoadStory "story-1"] (initialClient, slow_backend) in
  let p := {| p_operationId := "op-1"; p_state := initialState; p_every_ms := 15000 |} in
  let st := {| gs_status := generating; gs_error := None;
               gs_segment_id := Some "seg-1"; gs_video_url := None |} in
  let recorded := generationStatus (state (poll_callback 0 p w).2.1) in
  (get_generation_status "op-1" w.2).1 = Ok st
  ∧ recorded = <[ "op-1" := st ]> (generationStatus (state w.1))
  ∧ sceneProgressById (status_effect_entry 0 recorded None one_card ("scene-1", "op-1"))
      !! "scene-1" = Some (Z.min 90 (shown_progress one_card "scene-1" + 12)).
Proof.
  intros w p st recorded.
  assert ((get_generation_status (p_operationId p) w.2).1 = Ok st) as H1.
  { vm_compute. reflexivity. }
  split; [exact H1|].
  exact (status_recorded_as_is_progress_made_up 0 p w st 0 None one_card "scene-1" H1).
Defined.

(* ===================================================================== *)
(** * Further properties of the provider and the pages *)
(* ===================================================================== *)

(** ** The timers stay in order *)

Lemma timers_ok_same (c c' : Client) :
  activePolls c' = activePolls c → intervals c' = intervals c →
  timeouts c' = timeouts c → next_timer c' = next_timer c →
  timers_ok c → timers_ok c'.
Proof.
  intros Ha Hi Ht Hn [H1 H2 H3 H4 H5].
  split; rewrite ?Ha, ?Hi, ?Ht, ?Hn; done.
Qed.

Lemma timers_ok_initial : timers_ok initialClient.
Proof.
  split; simpl.
  - intros op Hop. by apply not_elem_of_empty in Hop.
  - intros h p Hh. by rewrite lookup_empty in Hh.
  - intros th cp Hth. by rewrite lookup_empty in Hth.
  - intros h [p Hh]. by rewrite lookup_empty in Hh.
  - intros th [cp Hth]. by rewrite lookup_empty in Hth.
Qed.

Lemma timers_ok_start (rendered : State) (op : OpId) (c : Client) :
  timers_ok c → timers_ok (startStatusPolling rendered op c).
Proof.
  intros Hok. destruct (decide (op ∈ activePolls c)) as [Hin|Hout].
  { by rewrite startStatusPolling_active. }
  destruct Hok as [H1 H2 H3 H4 H5].
  unfold startStatusPolling. rewrite bool_decide_eq_false_2 by done.
  split; simpl.
  - intros op' Hop'. apply elem_of_union in Hop' as [Hop'|Hop'].
    + apply elem_of_singleton in Hop' as ->.
      eexists _, _. rewrite lookup_insert_eq. done.
    + destruct (H1 op' Hop') as (h & p & Hh & Hp). exists h, p. split; [|done].
      rewrite lookup_insert_ne; [done|].
      intros <-. specialize (H4 (next_timer c) (mk_is_Some _ _ Hh)). lia.
  - intros h p. rewrite lookup_insert. case_decide as Heq.
    + subst h. intros [= <-]. simpl. by rewrite lookup_insert_eq.
    + intros Hh. rewrite lookup_insert_ne by congruence. by apply H2.
  - intros th cp. rewrite lookup_insert. case_decide as Heq.
    + subst th. by intros [= <-].
    + apply H3.
  - intros h. rewrite lookup_insert. case_decide; [lia|].
    intros Hh. specialize (H4 h Hh). lia.
  - intros th. rewrite lookup_insert. case_decide; [lia|].
    intros Hth. specialize (H5 th Hth). lia.
Qed.

Lemma timers_ok_resume (rendered : State) (story : Story) (c : Client) :
  timers_ok c → timers_ok (resumePollingForStory rendered story c).
Proof.
  unfold resumePollingForStory. revert c.
  induction (resumable story) as [|op ops IH]; intros c Hok; simpl; [done|].
  by apply IH, timers_ok_start.
Qed.

(** Stopping the poller behind interval [h], when that interval, if it
    still runs, polls [op]. *)
Lemma timers_ok_stop (h : nat) (op : OpId) (c : Client) :
  (∀ p, intervals c !! h = Some p → p_operationId p = op) →
  timers_ok c → timers_ok (stop_polling h op c).
Proof.
  intros Hh [H1 H2 H3 H4 H5]. split; simpl.
  - intros op' Hop'. apply elem_of_difference in Hop' as [Hop' Hne].
    destruct (H1 op' Hop') as (h' & p' & Hh' & Hp'). exists h', p'.
    split; [|done]. rewrite lookup_delete_ne; [done|].
    intros ->. apply Hne, elem_of_singleton. rewrite <- Hp'. by apply Hh.
  - intros h' p'. rewrite lookup_delete. case_decide; [done|]. apply H2.
  - done.
  - intros h' [p' Hp']. rewrite lookup_delete in Hp'. case_decide; [done|].
    by apply H4.
  - done.
Qed.

Lemma timers_ok_cap (th : nat) (cp : Cap) (c : Client) :
  timeouts c !! th = Some cp →
  timers_ok c →
  timers_ok (stop_polling (c_pollInterval cp) (c_operationId cp)
               (forget_timeout th c)).
Proof.
  intros Hth [H1 H2 H3 H4 H5].
  destruct (H3 th cp Hth) as [-> Hms]. split; simpl.
  - intros op' Hop'. apply elem_of_difference in Hop' as [Hop' Hne].
    destruct (H1 op' Hop') as (h' & p' & Hh' & Hp'). exists h', p'.
    split; [|done]. rewrite lookup_delete_ne; [done|].
    intros Heq. subst h'. apply Hne, elem_of_singleton.
    specialize (H2 _ _ Hh'). rewrite Hth in H2. injection H2 as ->.
    by rewrite <- Hp'.
  - intros h' p'. rewrite lookup_delete. case_decide as Hne; [done|].
    intros Hh'. rewrite lookup_delete_ne by congruence. by apply H2.
  - intros th' cp'. rewrite lookup_delete. case_decide; [done|]. apply H3.
  - intros h' [p' Hp']. rewrite lookup_delete in Hp'. case_decide; [done|].
    by apply H4.
  - intros th' [cp' Hcp']. rewrite lookup_delete in Hcp'. case_decide; [done|].
    by apply H5.
Qed.

Section KeepsTimers.
Context {B : Type} `{!Backend B}.

Lemma keeps_ret {A} (a : A) : keeps_timers (ret a : Act B A).
Proof. by intros w Hw. Qed.

Lemma keeps_mret {A} (a : A) : keeps_timers (mret a : Act B A).
Proof. by intros w Hw. Qed.

Lemma keeps_throw {A} (e : ApiError) : keeps_timers (throw e : Act B A).
Proof. by intros w Hw. Qed.

Lemma keeps_mbind {A C} (m : Act B A) (k : A → Act B C) :
  keeps_timers m → (∀ a, keeps_timers (k a)) → keeps_timers (m ≫= k).
Proof.
  intros Hm Hk w Hw. unfold mbind, Act_bind, bind.
  specialize (Hm w Hw). destruct (m w) as [[a|e] w']; [by apply Hk|done].
Qed.

Lemma keeps_try_catch {A} (m : Act B A) (h : ApiError → Act B A) :
  keeps_timers m → (∀ e, keeps_timers (h e)) → keeps_timers (try_catch m h).
Proof.
  intros Hm Hh w Hw. unfold try_catch.
  specialize (Hm w Hw). destruct (m w) as [[a|e] w']; [done|by apply Hh].
Qed.

Lemma keeps_detached {A} (m : Act B A) :
  keeps_timers m → keeps_timers (detached m).
Proof. intros Hm w Hw. by apply Hm. Qed.

Lemma keeps_when (b : bool) (m : Act B unit) :
  keeps_timers m → keeps_timers (when b m).
Proof. intros Hm. destruct b; [done|apply keeps_ret]. Qed.

Lemma keeps_on_client (f : Client → Client) :
  (∀ c, timers_ok c → timers_ok (f c)) → keeps_timers (on_client f : Act B unit).
Proof. intros Hf w Hw. by apply Hf. Qed.

Lemma keeps_dispatch (a : Action) : keeps_timers (dispatch a : Act B unit).
Proof. apply keeps_on_client. intros c. by apply timers_ok_same. Qed.

Lemma keeps_toast (t : Toast) : keeps_timers (toast t : Act B unit).
Proof. apply keeps_on_client. intros c. by apply timers_ok_same. Qed.

Lemma keeps_console_error (l : string) : keeps_timers (console_error l : Act B unit).
Proof. apply keeps_on_client. intros c. by apply timers_ok_same. Qed.

Lemma keeps_call {A} (r : Request) (f : B → Response A * B) :
  keeps_timers (call r f).
Proof.
  intros w Hw. unfold call.
  destruct (f w.2).1; simpl; by apply (timers_ok_same w.1).
Qed.

Hint Resolve keeps_ret keeps_mret keeps_throw keeps_mbind keeps_try_catch
  keeps_detached keeps_when keeps_dispatch keeps_toast keeps_console_error
  keeps_call : timers.

Lemma keeps_handleApiError (e : ApiError) (d : jsstring) :
  keeps_timers (handleApiError e d : Act B unit).
Proof. unfold handleApiError. auto with timers. Qed.

Hint Resolve keeps_handleApiError : timers.

Lemma keeps_resume (rendered : State) (story : Story) :
  keeps_timers (on_client (resumePollingForStory rendered story) : Act B unit).
Proof. apply keeps_on_client. intros c. apply timers_ok_resume. Qed.

Lemma keeps_start (rendered : State) (op : OpId) :
  keeps_timers (on_client (startStatusPolling rendered op) : Act B unit).
Proof. apply keeps_on_client. intros c. apply timers_ok_start. Qed.

Hint Resolve keeps_resume keeps_start : timers.

Lemma keeps_createStory (t d : jsstring) (u : string) :
  keeps_timers (createStory t d u : Act B Story).
Proof. unfold createStory. auto 10 with timers. Qed.

Lemma keeps_loadStory (rendered : State) (sid : StoryId) :
  keeps_timers (loadStory rendered sid : Act B Story).
Proof. unfold loadStory. auto 12 with timers. Qed.

Hint Resolve keeps_createStory keeps_loadStory : timers.

Lemma keeps_generateVideoSegment (rendered : State) (sid : StoryId)
    (prompt : jsstring) (image : option jsstring) (usePrev : bool)
    (options : GenerateOptions) :
  keeps_timers (generateVideoSegment rendered sid prompt image usePrev options
                : Act B GenerateResult).
Proof. unfold generateVideoSegment. auto 12 with timers. Qed.

Lemma keeps_stitchStory (rendered : State) (sid : StoryId) :
  keeps_timers (stitchStory rendered sid : Act B StitchResult).
Proof. unfold stitchStory. auto 10 with timers. Qed.

Lemma keeps_generateStoryFromPrompt (prompt : jsstring) (t m : Z) :
  keeps_timers (generateStoryFromPrompt prompt t m : Act B StoryGeneration).
Proof. unfold generateStoryFromPrompt. auto 10 with timers. Qed.

Lemma keeps_createStoryFromGeneration (rendered : State)
    (g : option StoryGeneration) (u : string) (options : CreateOptions) :
  keeps_timers (createStoryFromGeneration rendered g u options : Act B Story).
Proof.
  unfold createStoryFromGeneration. destruct g; auto 14 with timers.
Qed.

Hint Resolve keeps_generateVideoSegment keeps_stitchStory
  keeps_generateStoryFromPrompt keeps_createStoryFromGeneration : timers.

Lemma keeps_handleAddSegment (rendered : State) (sid : StoryId) (page : ViewPage) :
  keeps_timers (handleAddSegment rendered sid page : Act B ViewPage).
Proof.
  unfold handleAddSegment. destruct (negb _); auto 10 with timers.
Qed.

Lemma keeps_handleStitchStory (rendered : State) (sid : StoryId) (page : ViewPage) :
  keeps_timers (handleStitchStory rendered sid page : Act B ViewPage).
Proof. unfold handleStitchStory. auto 10 with timers. Qed.

Lemma keeps_handlePromptSubmit (page : CreatorPage) :
  keeps_timers (handlePromptSubmit page : Act B unit).
Proof.
  unfold handlePromptSubmit, setStoryGenerationStep.
  destruct (negb _); auto 10 with timers.
Qed.

Lemma keeps_generate_scenes (rendered : State) (sid : StoryId) (i : nat)
    (scenes : list Scene) :
  keeps_timers (generate_scenes rendered sid i scenes : Act B unit).
Proof.
  revert i. induction scenes as [|scene rest IH]; intros i; simpl;
    auto with timers.
Qed.

Hint Resolve keeps_generate_scenes : timers.

Lemma keeps_handleCreateVideos (rendered : State) (mode : Mode) :
  keeps_timers (handleCreateVideos rendered mode : Act B (option Navigation)).
Proof.
  unfold handleCreateVideos.
  apply keeps_try_catch; [|auto with timers].
  apply keeps_mbind.
  - destruct (currentStory rendered) as [s|]; [destruct (truthy_id _)|];
      auto with timers.
  - intros story. destruct mode; [destruct (currentStoryGeneration rendered)|];
      auto with timers.
Qed.

Lemma keeps_poll_callback (h : nat) (p : Poller) (w : Client * B) :
  intervals w.1 !! h = Some p →
  timers_ok w.1 → timers_ok (poll_callback h p w).2.1.
Proof.
  destruct w as [c b]. cbn [fst snd]. intros Hh Hok.
  assert (∀ c', activePolls c' = activePolls c → intervals c' = intervals c →
                timeouts c' = timeouts c → next_timer c' = next_timer c →
                timers_ok (stop_polling h (p_operationId p) c')) as Hstop.
  { intros c' Ha Hi Ht Hn. apply timers_ok_stop.
    - rewrite Hi, Hh. by intros p' [= <-].
    - by apply (timers_ok_same c). }
  unfold poll_callback. act_unfold. cbn.
  destruct (get_generation_status (p_operationId p) b) as [[st|e] b']; cbn.
  - destruct (gs_status st); cbn;
      try (by apply (timers_ok_same c));
      try (apply (timers_ok_same (stop_polling h (p_operationId p) c));
           [done..|by apply Hstop]).
    destruct (currentStory (p_state p)) as [story|]; cbn.
    + destruct (truthy_id (gs_segment_id st)); cbn.
      * apply keeps_loadStory. cbn.
        apply (timers_ok_same (stop_polling h (p_operationId p) c));
          [done..|by apply Hstop].
      * apply (timers_ok_same (stop_polling h (p_operationId p) c));
          [done..|by apply Hstop].
    + apply (timers_ok_same (stop_polling h (p_operationId p) c));
        [done..|by apply Hstop].
  - apply (timers_ok_same (stop_polling h (p_operationId p) c));
      [done..|by apply Hstop].
Qed.

Lemma keeps_ensureStoryExists (rendered : State) (userId : string) :
  keeps_timers (ensureStoryExists rendered userId : Act B Story).
Proof.
  unfold ensureStoryExists.
  destruct (currentStory rendered) as [s|]; [destruct (truthy_id _)|];
    destruct (currentStoryGeneration rendered); auto 10 with timers.
Qed.

Hint Resolve keeps_ensureStoryExists : timers.

Lemma keeps_generate_card_onClick (rendered : State) (index : nat)
    (scene : Scene) (now : Z) (cards : Cards) :
  keeps_timers (generate_card_onClick rendered index scene now cards : Act B Cards).
Proof.
  unfold generate_card_onClick. destruct (default false _); auto 10 with timers.
Qed.

Lemma keeps_handleCreateStory (rendered : State) (page : FirstPage) :
  keeps_timers (handleCreateStory rendered page
                : Act B (FirstPage * option Navigation)).
Proof.
  unfold handleCreateStory. destruct (negb _); auto 12 with timers.
Qed.

(** Every event keeps the timers in order. *)
Lemma step_timers_ok (ev : Event) (w : Client * B) :
  timers_ok w.1 → timers_ok (step ev w).1.
Proof.
  intros Hok. destruct ev as [h|th|sid|sid prompt usePrev]; simpl.
  - destruct (intervals w.1 !! h) as [p|] eqn:Hh; [|done].
    by apply keeps_poll_callback.
  - destruct (timeouts w.1 !! th) as [cp|] eqn:Hth; [|done].
    simpl. by apply timers_ok_cap.
  - by apply keeps_loadStory.
  - by apply keeps_generateVideoSegment.
Qed.

Lemma run_timers_ok (evs : list Event) (w : Client * B) :
  timers_ok w.1 → timers_ok (run evs w).1.
Proof.
  revert w. induction evs as [|ev evs IH]; intros w Hok; simpl; [done|].
  by apply IH, step_timers_ok.
Qed.

Lemma interact_timers_ok (i : Interaction) (w : Client * B) :
  timers_ok w.1 → timers_ok (interact i w).1.
Proof.
  intros Hok. destruct i; simpl.
  - by apply step_timers_ok.
  - by apply keeps_createStory.
  - by apply keeps_generateVideoSegment.
  - by apply keeps_stitchStory.
  - by apply keeps_generateStoryFromPrompt.
  - by apply keeps_createStoryFromGeneration.
  - by apply keeps_ensureStoryExists.
  - by apply keeps_handleAddSegment.
  - by apply keeps_handleStitchStory.
  - by apply keeps_handlePromptSubmit.
  - by apply keeps_handleCreateVideos.
  - by apply keeps_generate_card_onClick.
  - by apply keeps_handleCreateStory.
Qed.

Lemma session_timers_ok (ins : list Interaction) (w : Client * B) :
  timers_ok w.1 → timers_ok (session ins w).1.
Proof.
  revert w. induction ins as [|i ins IH]; intros w Hok; simpl; [done|].
  by apply IH, interact_timers_ok.
Qed.

(** X1. Whatever the user does and whichever timers fire, in whatever
    order and whatever the backend answers, an operation id that is in
    [activePollsRef] is being polled: there is a live interval whose
    callback polls that operation. So the guard of [startStatusPolling],
    which starts nothing for an id in the set, never leaves an operation
    in generation without a poller. *)
Theorem active_poll_has_interval (ins : list Interaction) (b0 : B) (op : OpId) :
  let c := (session ins (initialClient, b0)).1 in
  op ∈ activePolls c →
  ∃ h p, intervals c !! h = Some p ∧ p_operationId p = op.
Proof.
  intros c Hop.
  by apply (ok_active c (session_timers_ok ins (initialClient, b0) timers_ok_initial)).
Qed.

(** X2. Whatever the user does and whichever timers fire, every live
    interval still has its own timeout pending: the one registered right
    after it, which clears that interval and deletes its operation id,
    600000 ms after the interval was started. No poller outlives ten
    minutes. *)
Theorem live_interval_has_cap (ins : list Interaction) (b0 : B) (h : nat)
    (p : Poller) :
  let c := (session ins (initialClient, b0)).1 in
  intervals c !! h = Some p →
  timeouts c !! (S h)
  = Some {| c_pollInterval := h; c_operationId := p_operationId p;
            c_after_ms := 600000 |}.
Proof.
  intros c Hh.
  by apply (ok_capped c (session_timers_ok ins (initialClient, b0) timers_ok_initial)).
Qed.

End KeepsTimers.

Lemma active_poll_has_interval_witness :
  let ins := [Happens (CallLoadStory "story-1"); Happens (IntervalFires 0)] in
  let c := (session ins (initialClient, slow_backend)).1 in
  "op-1" ∈ activePolls c
  ∧ ∃ h p, intervals c !! h = Some p ∧ p_operationId p = "op-1".
Proof.
  intros ins c.
  assert ("op-1" ∈ activePolls c) as H1.
  { apply (bool_decide_unpack _). vm_compute. exact I. }
  split; [exact H1|].
  exact (active_poll_has_interval ins slow_backend "op-1" H1).
Defined.

Lemma live_interval_has_cap_witness :
  let ins := [Happens (CallLoadStory "story-1"); Happens (IntervalFires 0)] in
  let c := (session ins (initialClient, slow_backend)).1 in
  let p := {| p_operationId := "op-1"; p_state := initialState;
              p_every_ms := 15000 |} in
  intervals c !! 0%nat = Some p
  ∧ timeouts c !! 1%nat
    = Some {| c_pollInterval := 0; c_operationId := "op-1"; c_after_ms := 600000 |}.
Proof.
  intros ins c p.
  assert (intervals c !! 0%nat = Some p) as H1.
  { vm_compute. reflexivity. }
  split; [exact H1|].
  exact (live_interval_has_cap ins slow_backend 0 p H1).
Defined.

(** ** Resuming the polling of a story *)

Lemma startStatusPolling_activePolls (rendered : State) (op : OpId) (c : Client) :
  activePolls (startStatusPolling rendered op c) = {[op]} ∪ activePolls c.
Proof.
  unfold startStatusPolling. case_bool_decide; [|done].
  apply set_eq. set_solver.
Qed.

Lemma resume_activePolls (rendered : State) (ops : list OpId) (c : Client) :
  activePolls (foldl (λ c op, startStatusPolling rendered op c) c ops)
  = list_to_set ops ∪ activePolls c.
Proof.
  revert c. induction ops as [|op ops IH]; intros c; simpl.
  - apply set_eq. set_solver.
  - rewrite IH, startStatusPolling_activePolls. apply set_eq. set_solver.
Qed.

Lemma resume_all_active (rendered : State) (ops : list OpId) (c : Client) :
  (∀ op, op ∈ ops → op ∈ activePolls c) →
  foldl (λ c op, startStatusPolling rendered op c) c ops = c.
Proof.
  induction ops as [|op ops IH]; intros Hall; simpl; [done|].
  rewrite startStatusPolling_active; [|apply Hall; left].
  apply IH. intros op' Hop'. apply Hall. by right.
Qed.

(** X3. Resuming the polling of a story twice in a row is the same as
    resuming it once, also from another render: the second pass finds every
    operation of the story in [activePollsRef] and starts no interval and
    no timeout. *)
Theorem resumePollingForStory_idempotent (rendered rendered' : State)
    (story : Story) (c : Client) :
  resumePollingForStory rendered' story (resumePollingForStory rendered story c)
  = resumePollingForStory rendered story c.
Proof.
  unfold resumePollingForStory. apply resume_all_active.
  intros op Hop. rewrite resume_activePolls.
  apply elem_of_union. left. by apply elem_of_list_to_set.
Qed.

Lemma resume_counts (rendered : State) (ops : list OpId) (c : Client) :
  timers_ok c →
  let c' := foldl (λ c op, startStatusPolling rendered op c) c ops in
  let new : gset string := list_to_set ops ∖ activePolls c in
  size (intervals c') = (size (intervals c) + size new)%nat
  ∧ size (timeouts c') = (size (timeouts c) + size new)%nat.
Proof.
  revert c. induction ops as [|op ops IH]; intros c Hok; simpl.
  - replace (∅ ∖ activePolls c) with (∅ : gset string) by (apply set_eq; set_solver).
    rewrite size_empty. lia.
  - destruct (decide (op ∈ activePolls c)) as [Hin|Hout].
    + rewrite startStatusPolling_active by done.
      replace (({[op]} ∪ list_to_set ops) ∖ activePolls c)
        with (list_to_set ops ∖ activePolls c : gset string)
        by (apply set_eq; set_solver).
      by apply IH.
    + destruct (startStatusPolling_fresh rendered op c Hout) as (Hap & Hiv & Htm).
      assert (intervals c !! next_timer c = None) as Hnone.
      { destruct (intervals c !! next_timer c) eqn:E; [|done].
        assert (next_timer c < next_timer c)%nat; [|lia].
        apply (ok_intervals_old c Hok). by eexists. }
      assert (timeouts c !! S (next_timer c) = None) as Hnone'.
      { destruct (timeouts c !! S (next_timer c)) eqn:E; [|done].
        assert (S (next_timer c) < next_timer c)%nat; [|lia].
        apply (ok_timeouts_old c Hok). by eexists. }
      destruct (IH (startStatusPolling rendered op c)) as [Hs Hn].
      { by apply timers_ok_start. }
      rewrite Hs, Hn, Hiv, Htm, Hap.
      rewrite !map_size_insert_None by done.
      assert (({[op]} ∪ list_to_set ops) ∖ activePolls c
              = {[op]} ∪ (list_to_set ops ∖ ({[op]} ∪ activePolls c)) :> gset string)
        as ->.
      { apply set_eq. intros x. rewrite !elem_of_union, !elem_of_difference,
          !elem_of_union, !elem_of_singleton.
        destruct (decide (x = op)) as [->|]; naive_solver. }
      rewrite (size_union (C:=gset string) {[op]}
                 (list_to_set ops ∖ ({[op]} ∪ activePolls c))) by set_solver.
      rewrite size_singleton. lia.
Qed.

(** X4. Resuming the polling of a story, in any state the provider can be
    in, starts exactly one interval and one timeout for every distinct
    operation id of the story's segments in generation or publication that
    is not yet in [activePollsRef], however many segments share an id, and
    puts those ids into the set. *)
Theorem resumePollingForStory_starts_one_each {B} `{!Backend B}
    (ins : list Interaction) (b0 : B) (rendered : State) (story : Story) :
  let c := (session ins (initialClient, b0)).1 in
  let c' := resumePollingForStory rendered story c in
  let new : gset string := list_to_set (resumable story) ∖ activePolls c in
  activePolls c' = new ∪ activePolls c
  ∧ size (intervals c') = (size (intervals c) + size new)%nat
  ∧ size (timeouts c') = (size (timeouts c) + size new)%nat.
Proof.
  intros c c' new. split.
  - subst c' new. unfold resumePollingForStory. rewrite resume_activePolls.
    apply set_eq. intros x. rewrite !elem_of_union, elem_of_difference.
    destruct (decide (x ∈ activePolls c)); naive_solver.
  - apply resume_counts.
    apply (session_timers_ok ins (initialClient, b0) timers_ok_initial).
Qed.

(** ** How the actions of the provider end *)

Lemma last_with_toast (t : Toast) (c : Client) :
  last (toasts (with_toast t c)) = Some t.
Proof. cbn. apply last_snoc. Qed.

Section Outcomes.
Context {B : Type} `{!Backend B}.

(** An action written as [try { ... } catch (error) { handleApiError(error,
    d); throw error; }] reports its failures. *)
Lemma try_reported_throw {A} (d : jsstring) (m : Act B A) (w : Client * B)
    (e : ApiError) :
  (try_catch m (λ e, handleApiError e d ;; throw e) w).1 = Throw e →
  error (state (try_catch m (λ e, handleApiError e d ;; throw e) w).2.1)
  = Some (error_message e d)
  ∧ last (toasts (try_catch m (λ e, handleApiError e d ;; throw e) w).2.1)
    = Some (toast_error (error_message e d)).
Proof.
  unfold try_catch. destruct (m w) as [[a|e'] [c b]]; [done|].
  act_unfold. cbn. intros [= ->]. split; [done|apply last_snoc].
Qed.

Lemma try_reported {A} (d : jsstring) (m : Act B A) (w : Client * B) :
  (∀ a, (m w).1 = Return a → error (state (m w).2.1) = None) →
  reported d (try_catch m (λ e, handleApiError e d ;; throw e) w).
Proof.
  intros Hret. unfold reported.
  destruct (try_catch _ _ w).1 as [a|e] eqn:Hout.
  - unfold try_catch in *. destruct (m w) as [[a'|e'] w'] eqn:Hm.
    + by apply (Hret a').
    + by act_unfold.
  - by apply try_reported_throw.
Qed.

Lemma loadStory_reported (rendered : State) (sid : StoryId) (w : Client * B) :
  reported (js "Failed to load story") (loadStory rendered sid w).
Proof.
  apply try_reported. intros a. destruct w as [c b]. act_unfold. cbn.
  destruct (get_story sid b) as [[data|e] b']; cbn; [|done].
  intros _. case_bool_decide; cbn;
    by rewrite (proj1 (resumePollingForStory_frame _ data _)).
Qed.

(** X5. The provider tells how its actions end. When [createStory],
    [loadStory], [generateVideoSegment], [stitchStory] or
    [generateStoryFromPrompt] returns, the [error] of the state is [null];
    when it throws, [error] holds the message of the error thrown (the
    [error] field of the response, else the message of the error, else the
    default of the action) and the last toast shown is an error toast with
    that message. *)
Theorem action_outcome_is_reported (rendered : State) (w : Client * B)
    (t d prompt : jsstring) (userId : string) (sid : StoryId)
    (image : option jsstring) (usePrev : bool) (options : GenerateOptions)
    (target_total max_scene : Z) :
  reported (js "Failed to create story") (createStory t d userId w)
  ∧ reported (js "Failed to load story") (loadStory rendered sid w)
  ∧ reported (js "Failed to start video generation")
      (generateVideoSegment rendered sid prompt image usePrev options w)
  ∧ reported (js "Failed to stitch story") (stitchStory rendered sid w)
  ∧ reported (js "Failed to generate story")
      (generateStoryFromPrompt prompt target_total max_scene w).
Proof.
  split; [|split; [|split; [|split]]].
  - apply try_reported. intros a. destruct w as [c b]. act_unfold. cbn.
    by destruct (post_stories t d userId b) as [[data|e] b'].
  - apply loadStory_reported.
  - apply try_reported. intros a. destruct w as [c b]. act_unfold. cbn.
    destruct (silent options); cbn;
      (destruct (post_generate sid _ b) as [[data|e] b']; cbn; [|done]);
      by rewrite (proj1 (startStatusPolling_frame _ _ _)).
  - apply try_reported. intros a. destruct w as [c b].
    pose proof (loadStory_reported rendered sid) as Hl. unfold reported in Hl.
    revert Hl. generalize (loadStory rendered sid). intros load Hl.
    act_unfold. cbn.
    destruct (post_stitch sid b) as [[data|e] b']; cbn; [|done].
    match goal with |- context [load ?w] => specialize (Hl w); destruct (load w) as [[story|e] [c2 b2]] end;
      cbn in *; [|done].
    intros _. exact Hl.
  - apply try_reported. intros a. destruct w as [c b]. act_unfold. cbn.
    by destruct (post_stories_generate prompt target_total max_scene b)
      as [[data|e] b'].
Qed.

Lemma try_settles {A} (d : jsstring) (m : Act B A) (w : Client * B) :
  (∀ a, (m w).1 = Return a → loading (state (m w).2.1) = false) →
  loading (state (try_catch m (λ e, handleApiError e d ;; throw e) w).2.1) = false.
Proof.
  intros Hret. unfold try_catch. destruct (m w) as [[a|e] [c b]] eqn:Hm.
  - by apply (Hret a).
  - by act_unfold.
Qed.

Lemma loadStory_settles (rendered : State) (sid : StoryId) (w : Client * B) :
  loading (state (loadStory rendered sid w).2.1) = false.
Proof.
  apply try_settles. intros a. destruct w as [c b]. act_unfold. cbn.
  destruct (get_story sid b) as [[data|e] b']; cbn; [|done].
  intros _. case_bool_decide; cbn;
    by rewrite (proj1 (resumePollingForStory_frame _ data _)).
Qed.

Lemma createStory_settles (t d : jsstring) (userId : string) (w : Client * B) :
  loading (state (createStory t d userId w).2.1) = false.
Proof.
  apply try_settles. intros a. destruct w as [c b]. act_unfold. cbn.
  by destruct (post_stories t d userId b) as [[data|e] b'].
Qed.

(** X6. No action of the provider leaves the loading flag on. Whether it
    returns or throws, and whatever the backend answers, [loading] is
    [false] after [createStory], [loadStory], [stitchStory],
    [generateStoryFromPrompt] and [createStoryFromGeneration], and after
    [generateVideoSegment] unless that was called with [silent] and
    returned, in which case it has not touched the flag. *)
Theorem loading_is_switched_off (rendered : State) (w : Client * B)
    (t d prompt : jsstring) (userId : string) (sid : StoryId)
    (image : option jsstring) (usePrev : bool) (options : GenerateOptions)
    (target_total max_scene : Z) (g : option StoryGeneration)
    (coptions : CreateOptions) :
  let generated := generateVideoSegment rendered sid prompt image usePrev options w in
  loading (state (createStory t d userId w).2.1) = false
  ∧ loading (state (loadStory rendered sid w).2.1) = false
  ∧ loading (state (stitchStory rendered sid w).2.1) = false
  ∧ loading (state (generateStoryFromPrompt prompt target_total max_scene w).2.1)
    = false
  ∧ loading (state (createStoryFromGeneration rendered g userId coptions w).2.1)
    = false
  ∧ match generated.1 with
    | Throw _ => loading (state generated.2.1) = false
    | Return _ =>
        loading (state generated.2.1)
        = if silent options then loading (state w.1) else false
    end.
Proof.
  intros generated.
  split; [apply createStory_settles|]. split; [apply loadStory_settles|].
  split; [|split; [|split]].
  - apply try_settles. intros a. destruct w as [c b].
    pose proof (loadStory_settles rendered sid) as Hl.
    revert Hl. generalize (loadStory rendered sid). intros load Hl.
    act_unfold. cbn.
    destruct (post_stitch sid b) as [[data|e] b']; cbn; [|done].
    match goal with |- context [load ?w] =>
      specialize (Hl w); destruct (load w) as [[story|e] [c2 b2]] end;
      cbn in *; [|done].
    intros _. exact Hl.
  - apply try_settles. intros a. destruct w as [c b]. act_unfold. cbn.
    by destruct (post_stories_generate prompt target_total max_scene b)
      as [[data|e] b'].
  - apply try_settles. intros a. destruct g as [g|]; [|by destruct w, (c_silent coptions)].
    pose proof (loadStory_settles rendered) as Hl.
    revert Hl. generalize (loadStory rendered). intros load Hl.
    destruct w as [c b].
    destruct (preserveWizard coptions), (c_silent coptions); act_unfold; cbn;
      (match goal with |- context [createStory ?t ?d ?u ?w] =>
         pose proof (createStory_settles t d u w) as Hc;
         destruct (createStory t d u w) as [[story|e] [c1 b1]] end;
       cbn in *; [|done]);
      (destruct (put_generation (story_id story) g b1) as [[[]|e] b2]; cbn;
       [|done]);
      (match goal with |- context [load ?s ?w] =>
         specialize (Hl s w); destruct (load s w) as [[story'|e] [c3 b3]] end;
       cbn in *; done).
  - subst generated. destruct w as [c b].
    unfold generateVideoSegment. act_unfold. cbn.
    destruct (silent options); cbn;
      (destruct (post_generate sid _ b) as [[data|e] b']; cbn; [|done]);
      by rewrite ?(proj1 (startStatusPolling_frame _ _ _)).
Qed.

End Outcomes.

Section Failures.
Context {B : Type} `{!Backend B}.

(** X7. When the backend has stitched the story but the reload that
    follows is rejected, [stitchStory] throws the error of the reload: the
    user is shown two error toasts, the second under the default message of
    the stitch, no success toast, and the story on the page stays as it
    was, although the final video exists. *)
Theorem stitched_but_reported_failed (rendered : State) (sid : StoryId)
    (w : Client * B) (data : StitchResult) (e : ApiError) :
  (post_stitch sid w.2).1 = Ok data →
  (get_story sid (post_stitch sid w.2).2).1 = Rejected e →
  let r := stitchStory rendered sid w in
  r.1 = Throw e
  ∧ requests r.2.1 = requests w.1 ++ [PostStitch sid; GetStory sid]
  ∧ toasts r.2.1
    = toasts w.1 ++ [toast_error (error_message e (js "Failed to load story"));
                     toast_error (error_message e (js "Failed to stitch story"))]
  ∧ currentStory (state r.2.1) = currentStory (state w.1)
  ∧ error (state r.2.1) = Some (error_message e (js "Failed to stitch story")).
Proof.
  intros Hstitch Hget r. subst r. destruct w as [c b]. cbn [fst snd] in *.
  unfold stitchStory, loadStory. act_unfold. cbn.
  rewrite Hstitch. cbn. rewrite Hget. cbn.
  rewrite <- !app_assoc. done.
Qed.

(** X8. [createStoryFromGeneration] swallows a failure of the reload that
    follows the creation, but not silently: it returns the created story,
    and yet the state holds the error of the reload, an error toast has
    been shown for it, and the story on the page is not the created one. *)
Theorem created_but_error_shown (rendered : State) (g : StoryGeneration)
    (userId : string) (options : CreateOptions) (w : Client * B)
    (story : Story) (e : ApiError) :
  let t := fallbackTitle (Some g) in
  let d := or_str (sg_premise g) [] in
  let b1 := (post_stories t d userId w.2).2 in
  let b2 := (put_generation (story_id story) g b1).2 in
  (post_stories t d userId w.2).1 = Ok story →
  (put_generation (story_id story) g b1).1 = Ok tt →
  (get_story (story_id story) b2).1 = Rejected e →
  let r := createStoryFromGeneration rendered (Some g) userId options w in
  r.1 = Return story
  ∧ error (state r.2.1) = Some (error_message e (js "Failed to load story"))
  ∧ toast_error (error_message e (js "Failed to load story")) ∈ toasts r.2.1
  ∧ currentStory (state r.2.1) = currentStory (state w.1)
  ∧ console r.2.1 = console w.1 ++ ["Failed to persist story generation data"].
Proof.
  intros t d b1 b2 Hpost Hput Hget r. subst r b2 b1 t d.
  destruct w as [c b]. cbn [fst snd] in *.
  unfold createStoryFromGeneration, createStory, loadStory. act_unfold. cbn.
  destruct (c_silent options), (preserveWizard options); cbn;
    rewrite Hpost; cbn; rewrite Hput; cbn; rewrite Hget; cbn;
    (repeat split; [|done..]);
    rewrite ?elem_of_app, !list_elem_of_singleton; tauto.
Qed.

(** X9. A status request that is rejected ends the polling of its
    operation for good and without a word: the interval is cleared and the
    id leaves [activePollsRef], so the interval does not fire again; the
    state, and with it the recorded status of the operation, and the
    toasts are as before, only the console has one more line. The timeout
    registered with the interval stays pending. *)
Theorem rejected_poll_ends_polling_silently (h : nat) (p : Poller)
    (w : Client * B) (e : ApiError) :
  (get_generation_status (p_operationId p) w.2).1 = Rejected e →
  let w' := (poll_callback h p w).2 in
  state w'.1 = state w.1
  ∧ toasts w'.1 = toasts w.1
  ∧ console w'.1 = console w.1 ++ ["Status polling error:"]
  ∧ intervals w'.1 = delete h (intervals w.1)
  ∧ activePolls w'.1 = activePolls w.1 ∖ {[p_operationId p]}
  ∧ timeouts w'.1 = timeouts w.1
  ∧ step (IntervalFires h) w' = w'.
Proof.
  intros Hget w'. subst w'. destruct w as [c b]. cbn [fst snd] in *.
  unfold poll_callback. act_unfold. cbn. rewrite Hget. cbn.
  repeat split. unfold step. cbn. by rewrite lookup_delete_eq.
Qed.

(** X10. The poller started by a render reloads, when its operation
    completes, the story that was current in that render, whatever story
    is current by then: with a segment id in the status and a story in the
    state it was started with, the completion sends the status request and
    a reload of that story; started from a render without a current story
    it reloads nothing, even though a story may be on the page now. *)
Theorem completed_poll_reloads_story_of_its_render (rendered : State)
    (op : OpId) (h : nat) (w : Client * B) (st : GenStatus) :
  let p := {| p_operationId := op; p_state := rendered; p_every_ms := 15000 |} in
  (get_generation_status op w.2).1 = Ok st →
  gs_status st = completed →
  truthy_id (gs_segment_id st) = true →
  requests (poll_callback h p w).2.1
  = requests w.1 ++ GetGenerationStatus op ::
      match currentStory rendered with
      | Some story => [GetStory (story_id story)]
      | None => []
      end.
Proof.
  intros p Hget Hst Hseg. subst p. destruct w as [c b]. cbn [fst snd] in *.
  unfold poll_callback. act_unfold. cbn. rewrite Hget. cbn. rewrite Hst. cbn.
  destruct (currentStory rendered) as [story|]; cbn; [|done].
  rewrite Hseg. cbn. rewrite (proj1 (loadStory_frame _ _ _)). cbn.
  by rewrite <- app_assoc.
Qed.

End Failures.

Lemma stitched_but_reported_failed_witness :
  let w := (initialClient, write_only) in
  (post_stitch "story-1" w.2).1 = Ok {| sr_final_video_url := js "gs://final.mp4" |}
  ∧ (get_story "story-1" (post_stitch "story-1" w.2).2).1 = Rejected network_error
  ∧ (stitchStory initialState "story-1" w).1 = Throw network_error.
Proof.
  intros w.
  assert ((post_stitch "story-1" w.2).1
          = Ok {| sr_final_video_url := js "gs://final.mp4" |}) as H1.
  { reflexivity. }
  assert ((get_story "story-1" (post_stitch "story-1" w.2).2).1
          = Rejected network_error) as H2.
  { reflexivity. }
  split; [exact H1|]. split; [exact H2|].
  exact (proj1 (stitched_but_reported_failed initialState "story-1" w _ _ H1 H2)).
Defined.

Lemma created_but_error_shown_witness :
  let w := (initialClient, write_only) in
  let options := {| c_silent := false; preserveWizard := false |} in
  let r := createStoryFromGeneration initialState (Some two_scenes) "anonymous"
             options w in
  (post_stories (fallbackTitle (Some two_scenes)) (or_str (sg_premise two_scenes) [])
     "anonymous" w.2).1 = Ok (story_of [] None)
  ∧ r.1 = Return (story_of [] None)
  ∧ error (state r.2.1)
    = Some (error_message network_error (js "Failed to load story")).
Proof.
  intros w options r.
  assert ((post_stories (fallbackTitle (Some two_scenes))
             (or_str (sg_premise two_scenes) []) "anonymous" w.2).1
          = Ok (story_of [] None)) as H1.
  { reflexivity. }
  assert ((put_generation (story_id (story_of [] None)) two_scenes
             (post_stories (fallbackTitle (Some two_scenes))
                (or_str (sg_premise two_scenes) []) "anonymous" w.2).2).1
          = Ok tt) as H2.
  { reflexivity. }
  assert ((get_story (story_id (story_of [] None))
             (put_generation (story_id (story_of [] None)) two_scenes
                (post_stories (fallbackTitle (Some two_scenes))
                   (or_str (sg_premise two_scenes) []) "anonymous" w.2).2).2).1
          = Rejected network_error) as H3.
  { reflexivity. }
  split; [exact H1|].
  pose proof (created_but_error_shown initialState two_scenes "anonymous" options w
                (story_of [] None) network_error H1 H2 H3) as H.
  exact (conj (proj1 H) (proj1 (proj2 H))).
Defined.

Lemma rejected_poll_ends_polling_silently_witness :
  let p := {| p_operationId := "op-1"; p_state := initialState;
              p_every_ms := 15000 |} in
  let w := (startStatusPolling initialState "op-1" initialClient, offline) in
  (get_generation_status (p_operationId p) w.2).1 = Rejected network_error
  ∧ step (IntervalFires 0) (poll_callback 0 p w).2 = (poll_callback 0 p w).2.
Proof.
  intros p w.
  assert ((get_generation_status (p_operationId p) w.2).1 = Rejected network_error)
    as H1.
  { reflexivity. }
  split; [exact H1|].
  exact (proj2 (proj2 (proj2 (proj2 (proj2 (proj2
    (rejected_poll_ends_polling_silently 0 p w network_error H1))))))).
Defined.

Lemma completed_poll_reloads_story_of_its_render_witness :
  let w := (wizard_client, obliging) in
  let st := {| gs_status := completed; gs_error := None;
               gs_segment_id := Some "seg-1"; gs_video_url := None |} in
  let p := {| p_operationId := "op-1"; p_state := initialState;
              p_every_ms := 15000 |} in
  (get_generation_status "op-1" w.2).1 = Ok st
  ∧ gs_status st = completed
  ∧ truthy_id (gs_segment_id st) = true
  ∧ currentStory (state w.1) = Some (story_of [] None)
  ∧ requests (poll_callback 0 p w).2.1 = [GetGenerationStatus "op-1"].
Proof.
  intros w st p.
  assert ((get_generation_status "op-1" w.2).1 = Ok st) as H1.
  { reflexivity. }
  assert (gs_status st = completed) as H2.
  { reflexivity. }
  assert (truthy_id (gs_segment_id st) = true) as H3.
  { reflexivity. }
  split; [exact H1|]. split; [exact H2|]. split; [exact H3|].
  split; [reflexivity|].
  exact (completed_poll_reloads_story_of_its_render initialState "op-1" 0 w st
           H1 H2 H3).
Defined.

(** ** The handlers of the pages *)

Section Handlers.
Context {B : Type} `{!Backend B}.

Lemma try_catch_returns {A} (m : Act B A) (h : ApiError → Act B A) (w : Client * B) :
  (∀ e w', ∃ a, (h e w').1 = Return a) →
  ∃ a, (try_catch m h w).1 = Return a.
Proof.
  intros Hh. unfold try_catch. destruct (m w) as [[a|e] w']; [by exists a|].
  apply Hh.
Qed.

(** X11. No handler of a page lets a rejection escape: whatever the
    backend answers, the promise that [handleAddSegment],
    [handleStitchStory], [handlePromptSubmit], [handleCreateVideos], the
    Generate button of a storyboard card and [handleCreateStory] return is
    fulfilled, every failure of an action having ended in the handler's
    [catch]. *)
Theorem handlers_never_throw (rendered : State) (w : Client * B)
    (sid : StoryId) (page : ViewPage) (cpage : CreatorPage) (mode : Mode)
    (index : nat) (scene : Scene) (now : Z) (cards : Cards) (fpage : FirstPage) :
  (∃ a, (handleAddSegment rendered sid page w).1 = Return a)
  ∧ (∃ a, (handleStitchStory rendered sid page w).1 = Return a)
  ∧ (∃ a, (handlePromptSubmit cpage w).1 = Return a)
  ∧ (∃ a, (handleCreateVideos rendered mode w).1 = Return a)
  ∧ (∃ a, (generate_card_onClick rendered index scene now cards w).1 = Return a)
  ∧ (∃ a, (handleCreateStory rendered fpage w).1 = Return a).
Proof.
  split; [|split; [|split; [|split; [|split]]]].
  - unfold handleAddSegment. destruct (negb _); [by eexists|].
    apply try_catch_returns. intros e w'. by eexists.
  - apply try_catch_returns. intros e w'. by eexists.
  - unfold handlePromptSubmit. destruct (negb _); [by eexists|].
    apply try_catch_returns. intros e w'. by eexists.
  - apply try_catch_returns. intros e w'. by eexists.
  - unfold generate_card_onClick. destruct (default false _); [by eexists|].
    apply try_catch_returns. intros e w'. by eexists.
  - unfold handleCreateStory. destruct (negb _); [by eexists|].
    apply try_catch_returns. intros e w'. by eexists.
Qed.

Lemma generateVideoSegment_requests (rendered : State) (sid : StoryId)
    (prompt : jsstring) (image : option jsstring) (usePrev : bool)
    (options : GenerateOptions) (w : Client * B) :
  let form := {| f_prompt := prompt; f_use_previous_frame := usePrev;
                 f_target_sequence := targetSequence options;
                 f_image := image |} in
  let r := generateVideoSegment rendered sid prompt image usePrev options w in
  requests r.2.1 = requests w.1 ++ [PostGenerate sid form]
  ∧ r.2.2 = (post_generate sid form w.2).2
  ∧ match (post_generate sid form w.2).1 with
    | Ok data => r.1 = Return data
    | Rejected e => r.1 = Throw e
    end.
Proof.
  intros form r. subst r form. destruct w as [c b].
  unfold generateVideoSegment. act_unfold. cbn.
  destruct (silent options); cbn;
    (destruct (post_generate sid _ b) as [[data|e] b']; cbn; [|done]);
    by rewrite ?(proj1 (proj2 (startStatusPolling_frame _ _ _))).
Qed.

(** X12. The add-segment form of the story page. A prompt that is not
    blank is sent as typed, not trimmed, and always as a continuation of
    the previous segment. When the backend accepts it, the form is emptied
    and closed and the story is reloaded; when the backend rejects it, the
    form stays open with the text as typed, and nothing is reloaded. *)
Theorem add_segment_keeps_text_on_failure (rendered : State) (sid : StoryId)
    (page : ViewPage) (w : Client * B) :
  trim (newPrompt page) ≠ [] →
  let form := {| f_prompt := newPrompt page; f_use_previous_frame := true;
                 f_target_sequence := None; f_image := None |} in
  let r := handleAddSegment rendered sid page w in
  match (post_generate sid form w.2).1 with
  | Ok _ =>
      r.1 = Return {| newPrompt := []; showAddSegment := false;
                      isStitching := isStitching page |}
      ∧ requests r.2.1 = requests w.1 ++ [PostGenerate sid form; GetStory sid]
  | Rejected _ =>
      r.1 = Return page
      ∧ requests r.2.1 = requests w.1 ++ [PostGenerate sid form]
  end.
Proof.
  intros Hne form r. subst r form. cbv zeta.
  unfold handleAddSegment.
  destruct (trim (newPrompt page)) as [|ch rest] eqn:Ht; [done|]. cbn [truthy negb].
  pose proof (generateVideoSegment_requests rendered sid (newPrompt page) None true
                no_options w) as Hgen.
  cbv zeta in Hgen. cbn [targetSequence no_options] in Hgen.
  destruct Hgen as (Hreq & Hb & Hout).
  unfold try_catch, mbind, Act_bind, bind.
  destruct (generateVideoSegment rendered sid (newPrompt page) None true no_options w)
    as [[data|e] [c1 b1]]; cbn [fst snd] in Hreq, Hb, Hout.
  - destruct (post_generate sid _ w.2).1; [|done].
    unfold detached. cbn. split; [done|].
    rewrite (proj1 (loadStory_frame _ _ _)). cbn. rewrite Hreq.
    by rewrite <- app_assoc.
  - destruct (post_generate sid _ w.2).1; [done|].
    unfold console_error, on_client. cbn. done.
Qed.



End Handlers.

Lemma add_segment_keeps_text_on_failure_witness :
  let page := {| newPrompt := js " a dog runs "; showAddSegment := true;
                 isStitching := false |} in
  let w := (initialClient, offline) in
  trim (newPrompt page) ≠ []
  ∧ (handleAddSegment initialState "story-1" page w).1 = Return page.
Proof.
  intros page w.
  assert (trim (newPrompt page) ≠ []) as H1.
  { vm_compute. discriminate. }
  split; [exact H1|].
  exact (proj1 (add_segment_keeps_text_on_failure initialState "story-1" page w H1)).
Defined.

(** ** The storyboard cards *)

Lemma status_effect_entry_ops (now : Z) (gs : gmap string GenStatus)
    (story : option Story) (page : CreatorPage) (entry : SceneId * OpId) :
  sceneOpById (status_effect_entry now gs story page entry) = sceneOpById page.
Proof.
  unfold status_effect_entry. destruct (gs !! entry.2) as [st|]; [|done].
  by destruct (gs_status st).
Qed.

(** The status effect for one entry leaves the other cards alone. *)
Lemma status_effect_entry_other (now : Z) (gs : gmap string GenStatus)
    (story : option Story) (page : CreatorPage) (entry : SceneId * OpId)
    (id : SceneId) :
  entry.1 ≠ id →
  let page' := status_effect_entry now gs story page entry in
  cardGeneratingById page' !! id = cardGeneratingById page !! id
  ∧ sceneProgressById page' !! id = sceneProgressById page !! id
  ∧ sceneVideoById page' !! id = sceneVideoById page !! id
  ∧ sceneLastUpdateById page' !! id = sceneLastUpdateById page !! id.
Proof.
  intros Hne page'. subst page'. unfold status_effect_entry.
  destruct (gs !! entry.2) as [st|]; [|done].
  destruct (gs_status st) eqn:Hst; cbn; repeat case_bool_decide;
    try discriminate; repeat (rewrite lookup_insert_ne by done); try done.
  repeat split; try done.
  destruct (truthy_opt (gs_video_url st)).
  - destruct (gs_video_url st); by repeat (rewrite lookup_insert_ne by done).
  - destruct (gs_segment_id st) as [[|a segId]|]; [done| |done].
    destruct story as [s|]; [|done].
    destruct (list_find _ _) as [[i seg]|]; [|done].
    destruct (video_url seg) as [url|]; [|done].
    destruct (truthy url); by repeat (rewrite lookup_insert_ne by done).
Qed.

Lemma status_effect_fold_other (now : Z) (gs : gmap string GenStatus)
    (story : option Story) (entries : list (SceneId * OpId)) (page : CreatorPage)
    (id : SceneId) :
  id ∉ entries.*1 →
  let page' := foldl (status_effect_entry now gs story) page entries in
  cardGeneratingById page' !! id = cardGeneratingById page !! id
  ∧ sceneProgressById page' !! id = sceneProgressById page !! id
  ∧ sceneVideoById page' !! id = sceneVideoById page !! id
  ∧ sceneLastUpdateById page' !! id = sceneLastUpdateById page !! id.
Proof.
  revert page. induction entries as [|entry entries IH]; intros page Hid; [done|].
  cbn [foldl]. rewrite fmap_cons, not_elem_of_cons in Hid. destruct Hid as [Hne Hid].
  destruct (IH (status_effect_entry now gs story page entry) Hid)
    as (-> & -> & -> & ->).
  by apply status_effect_entry_other.
Qed.

(** What the status effect does to the card of the entry it handles. *)
Lemma status_effect_entry_card (now : Z) (gs : gmap string GenStatus)
    (story : option Story) (page : CreatorPage) (sceneId : SceneId)
    (opId : OpId) (st : GenStatus) :
  gs !! opId = Some st →
  let page' := status_effect_entry now gs story page (sceneId, opId) in
  sceneLastUpdateById page' !! sceneId = Some now
  ∧ match gs_status st with
    | completed =>
        sceneProgressById page' !! sceneId = Some 100
        ∧ cardGeneratingById page' !! sceneId = Some false
    | failed =>
        sceneProgressById page' !! sceneId = sceneProgressById page !! sceneId
        ∧ cardGeneratingById page' !! sceneId = Some false
    | generating | publishing =>
        sceneProgressById page' !! sceneId
        = Some (Z.min 90 (shown_progress page sceneId + 12))
        ∧ cardGeneratingById page' !! sceneId = cardGeneratingById page !! sceneId
    | pending =>
        sceneProgressById page' !! sceneId = sceneProgressById page !! sceneId
        ∧ cardGeneratingById page' !! sceneId = cardGeneratingById page !! sceneId
    end.
Proof.
  intros Hst page'. subst page'. unfold status_effect_entry, shown_progress. cbn.
  rewrite Hst.
  destruct (gs_status st) eqn:E; cbn; repeat case_bool_decide; try discriminate;
    rewrite ?lookup_insert_eq; (split; [done|]); (split; [|done]); try done.
  all: by destruct (sceneProgressById page !! sceneId) as [[| |]|].
Qed.

(** X14. The status effect of the creator page, run over all cards, does
    for each card what the status of its own operation says, the other
    cards not interfering (an object has each scene id once): [completed]
    sets the progress to 100 and ends the generating state; [failed] ends
    the generating state and keeps the progress; [generating] and
    [publishing] move the progress to what the bar showed plus 12, at most
    90, and keep the generating state; [pending] changes neither. In each
    case the time of the last update becomes the current time. *)
Theorem status_effect_by_card (now : Z) (gs : gmap string GenStatus)
    (story : option Story) (page : CreatorPage) (sceneId : SceneId)
    (opId : OpId) (st : GenStatus) :
  NoDup (sceneOpById page).*1 →
  (sceneId, opId) ∈ sceneOpById page →
  gs !! opId = Some st →
  let page' := status_effect now gs story page in
  sceneLastUpdateById page' !! sceneId = Some now
  ∧ match gs_status st with
    | completed =>
        sceneProgressById page' !! sceneId = Some 100
        ∧ cardGeneratingById page' !! sceneId = Some false
    | failed =>
        sceneProgressById page' !! sceneId = sceneProgressById page !! sceneId
        ∧ cardGeneratingById page' !! sceneId = Some false
    | generating | publishing =>
        sceneProgressById page' !! sceneId
        = Some (Z.min 90 (shown_progress page sceneId + 12))
        ∧ cardGeneratingById page' !! sceneId = cardGeneratingById page !! sceneId
    | pending =>
        sceneProgressById page' !! sceneId = sceneProgressById page !! sceneId
        ∧ cardGeneratingById page' !! sceneId = cardGeneratingById page !! sceneId
    end.
Proof.
  intros Hnd Hin Hst page'. subst page'. unfold status_effect.
  apply list_elem_of_split in Hin as (l1 & l2 & Hl). rewrite Hl in Hnd |- *.
  rewrite fmap_app, fmap_cons in Hnd. apply NoDup_app in Hnd as (_ & Hl1 & Hnd).
  apply NoDup_cons in Hnd as [Hl2 _]. cbn [fst] in Hl1, Hl2.
  assert (sceneId ∉ l1.*1) as Hl1'.
  { intros Hin1. apply (Hl1 _ Hin1). left. }
  rewrite foldl_app. cbn [foldl].
  set (page1 := foldl (status_effect_entry now gs story) page l1).
  destruct (status_effect_fold_other now gs story l1 page sceneId Hl1')
    as (Hcg1 & Hpr1 & _ & _). fold page1 in Hcg1, Hpr1.
  destruct (status_effect_fold_other now gs story l2
              (status_effect_entry now gs story page1 (sceneId, opId)) sceneId Hl2)
    as (-> & -> & _ & ->).
  pose proof (status_effect_entry_card now gs story page1 sceneId opId st Hst) as He.
  cbv zeta in He. unfold shown_progress in *. rewrite Hpr1, Hcg1 in He. exact He.
Qed.

Lemma status_effect_by_card_witness :
  let gs : gmap string GenStatus :=
    {[ "op-1" := {| gs_status := failed; gs_error := None;
                    gs_segment_id := None; gs_video_url := None |} ]} in
  let page' := status_effect 5 gs None one_card in
  NoDup (sceneOpById one_card).*1
  ∧ ("scene-1", "op-1") ∈ sceneOpById one_card
  ∧ sceneLastUpdateById page' !! "scene-1" = Some 5
  ∧ sceneProgressById page' !! "scene-1" = sceneProgressById one_card !! "scene-1"
  ∧ cardGeneratingById page' !! "scene-1" = Some false.
Proof.
  intros gs page'.
  assert (NoDup (sceneOpById one_card).*1) as H1.
  { apply (bool_decide_unpack _). vm_compute. exact I. }
  assert (("scene-1", "op-1") ∈ sceneOpById one_card) as H2.
  { apply (bool_decide_unpack _). vm_compute. exact I. }
  assert (gs !! "op-1" = Some {| gs_status := failed; gs_error := None;
                                 gs_segment_id := None; gs_video_url := None |}) as H3.
  { vm_compute. reflexivity. }
  split; [exact H1|]. split; [exact H2|].
  exact (status_effect_by_card 5 gs None one_card "scene-1" "op-1" _ H1 H2 H3).
Defined.

Section Cards.
Context {B : Type} `{!Backend B}.

(** X15. A storyboard card whose generation request is rejected is stuck.
    With a story on the page, a click on Generate for a card that is not
    generating and has no operation yet sends one request, with the
    sequence number of the scene as target and the previous frame for
    every scene but the first. If the backend rejects it, the handler
    leaves the card in its generating state: no status that arrives later
    ends that state, since the card has no operation, and further clicks
    on the button do nothing. *)
Theorem rejected_card_stays_generating (rendered : State) (index : nat)
    (scene : Scene) (now : Z) (cards : Cards) (w : Client * B) (story : Story)
    (e : ApiError) :
  let id := scene_id scene in
  let form := {| f_prompt := card_prompt scene;
                 f_use_previous_frame := 1 <? scene_number index scene;
                 f_target_sequence := Some (scene_number index scene);
                 f_image := None |} in
  currentStory rendered = Some story →
  story_id story ≠ "" →
  default false (cardGeneratingById (cards_page cards) !! id) = false →
  id ∉ (sceneOpById (cards_page cards)).*1 →
  (post_generate (story_id story) form w.2).1 = Rejected e →
  let r := generate_card_onClick rendered index scene now cards w in
  ∃ cards',
    r.1 = Return cards'
    ∧ requests r.2.1 = requests w.1 ++ [PostGenerate (story_id story) form]
    ∧ cardGeneratingById (cards_page cards') !! id = Some true
    ∧ (∀ now' gs story',
         cardGeneratingById (status_effect now' gs story' (cards_page cards')) !! id
         = Some true)
    ∧ (∀ rendered' index' now' (w' : Client * B),
         generate_card_onClick rendered' index' scene now' cards' w'
         = (Return cards', w')).
Proof.
  intros id form Hstory Hid Hoff Hnew Hrej r. subst r.
  unfold generate_card_onClick. fold id. rewrite Hoff.
  unfold ensureStoryExists. rewrite Hstory.
  assert (truthy_id (Some (story_id story)) = true) as ->.
  { by destruct (story_id story). }
  pose proof (generateVideoSegment_requests rendered (story_id story)
                (card_prompt scene) None (1 <? scene_number index scene)
                {| silent := true; targetSequence := Some (scene_number index scene) |}
                w) as Hgen.
  cbv zeta in Hgen. cbn [targetSequence] in Hgen. fold form in Hgen.
  destruct Hgen as (Hreq & _ & Hout). rewrite Hrej in Hout.
  unfold try_catch, mbind, mret, Act_bind, Act_ret, bind, ret. cbv beta iota.
  destruct (generateVideoSegment rendered (story_id story) _ None _ _ w)
    as [[data|e'] [c1 b1]]; [done|].
  cbn [fst snd] in Hreq. unfold console_error, on_client. cbn [fst snd].
  eexists. split; [reflexivity|]. split; [exact Hreq|].
  split; [cbn; apply lookup_insert_eq|]. split.
  - intros now' gs story'. unfold status_effect.
    destruct (status_effect_fold_other now' gs story'
      (sceneOpById (Build_CreatorPage (storyPrompt (cards_page cards))
         (targetDurationSeconds (cards_page cards))
         (<[id := true]> (cardGeneratingById (cards_page cards)))
         (sceneOpById (cards_page cards)) (sceneVideoById (cards_page cards))
         (sceneProgressById (cards_page cards))
         (sceneLastUpdateById (cards_page cards))))
      (Build_CreatorPage (storyPrompt (cards_page cards))
         (targetDurationSeconds (cards_page cards))
         (<[id := true]> (cardGeneratingById (cards_page cards)))
         (sceneOpById (cards_page cards)) (sceneVideoById (cards_page cards))
         (sceneProgressById (cards_page cards))
         (sceneLastUpdateById (cards_page cards))) id Hnew) as (Hcg & _).
    cbn [cards_page]. rewrite Hcg. cbn. apply lookup_insert_eq.
  - intros rendered' index' now' w'. unfold generate_card_onClick. cbn.
    fold id. by rewrite lookup_insert_eq.
Qed.

End Cards.

Lemma rejected_card_stays_generating_witness :
  let scene := {| scene_id := "scene-2"; scene_sequence := 2;
                  veo_prompt := Some (js "what follows");
                  visual_description := None |} in
  let cards := {| cards_page := one_card; sceneStartAtById := ∅ |} in
  let w := (wizard_client, offline) in
  let r := generate_card_onClick wizard_state 1 scene 7 cards w in
  currentStory wizard_state = Some (story_of [] None)
  ∧ default false (cardGeneratingById (cards_page cards) !! "scene-2") = false
  ∧ ("scene-2" ∉ (sceneOpById (cards_page cards)).*1)
  ∧ ∃ cards', r.1 = Return cards'
      ∧ cardGeneratingById (cards_page cards') !! "scene-2" = Some true.
Proof.
  intros scene cards w r.
  assert (currentStory wizard_state = Some (story_of [] None)) as H1.
  { reflexivity. }
  assert (story_id (story_of [] None) ≠ "") as H2.
  { discriminate. }
  assert (default false (cardGeneratingById (cards_page cards) !! scene_id scene)
          = false) as H3.
  { vm_compute. reflexivity. }
  assert (scene_id scene ∉ (sceneOpById (cards_page cards)).*1) as H4.
  { apply (bool_decide_unpack _). vm_compute. exact I. }
  assert ((post_generate (story_id (story_of [] None))
             {| f_prompt := card_prompt scene;
                f_use_previous_frame := 1 <? scene_number 1 scene;
                f_target_sequence := Some (scene_number 1 scene);
                f_image := None |} w.2).1 = Rejected network_error) as H5.
  { reflexivity. }
  split; [exact H1|]. split; [exact H3|]. split; [exact H4|].
  destruct (rejected_card_stays_generating wizard_state 1 scene 7 cards w
              (story_of [] None) network_error H1 H2 H3 H4 H5)
    as (cards' & Hr & _ & Hcg & _).
  exists cards'. split; [exact Hr|exact Hcg].
Defined.

(** ** The first version of the creator page *)

Section FirstPageFacts.
Context {B : Type} `{!Backend B}.

Lemma createStory_requests (t d : jsstring) (userId : string) (w : Client * B) :
  let r := createStory t d userId w in
  requests r.2.1 = requests w.1 ++ [PostStories t d userId]
  ∧ r.2.2 = (post_stories t d userId w.2).2
  ∧ match (post_stories t d userId w.2).1 with
    | Ok data => r.1 = Return data
    | Rejected e => r.1 = Throw e
    end.
Proof.
  intros r. subst r. destruct w as [c b]. unfold createStory. act_unfold. cbn.
  by destruct (post_stories t d userId b) as [[data|e] b'].
Qed.

(** X16. The first version of the creator page creates the story under the
    title as typed and then asks for the first segment only if there is a
    prompt that is not blank or an image. That request never uses the
    previous frame, which a story without segments does not have, and its
    prompt is never empty: a missing prompt is replaced by a default.
    Whatever the backend answers to it, the handler returns with
    [isCreating] off. *)
Theorem first_segment_never_from_previous_frame (rendered : State)
    (page : FirstPage) (w : Client * B) (story : Story) :
  let form := {| f_prompt := or_str (Some (prompt page)) (js "Create an opening scene");
                 f_use_previous_frame := false;
                 f_target_sequence := None;
                 f_image := uploadedImage page |} in
  trim (storyTitle page) ≠ [] →
  (post_stories (storyTitle page) (storyDescription page) "anonymous" w.2).1
  = Ok story →
  let r := handleCreateStory rendered page w in
  requests r.2.1
  = requests w.1
    ++ PostStories (storyTitle page) (storyDescription page) "anonymous"
    :: (if truthy (trim (prompt page)) || bool_decide (is_Some (uploadedImage page))
        then [PostGenerate (story_id story) form] else [])
  ∧ f_prompt form ≠ []
  ∧ ∃ page' nav, r.1 = Return (page', nav) ∧ isCreating page' = false.
Proof.
  intros form Hne Hpost r. subst r.
  unfold handleCreateStory.
  destruct (trim (storyTitle page)) as [|ch rest] eqn:Ht; [done|]. cbn [truthy negb].
  destruct (createStory_requests (storyTitle page) (storyDescription page)
              "anonymous" w) as (Hreq & _ & Hout).
  rewrite Hpost in Hout.
  assert (f_prompt form ≠ []) as Hform.
  { subst form. cbn. by destruct (prompt page). }
  unfold try_catch, mbind, mret, Act_bind, Act_ret, bind, ret. cbv beta iota.
  destruct (createStory _ _ _ w) as [[story'|e] w1]; cbn [fst snd] in Hreq, Hout;
    [|done].
  injection Hout as ->.
  destruct (truthy (trim (prompt page)) || bool_decide (is_Some (uploadedImage page)));
    cbn [when]; unfold ret; cbv beta iota.
  - pose proof (generateVideoSegment_requests rendered (story_id story)
                  (or_str (Some (prompt page)) (js "Create an opening scene"))
                  (uploadedImage page) false no_options w1) as Hgen.
    cbv zeta in Hgen. cbn [targetSequence no_options] in Hgen. fold form in Hgen.
    destruct Hgen as (Hreq1 & _ & _).
    destruct (generateVideoSegment rendered (story_id story) _ _ false no_options w1)
      as [[data|e] w2]; cbn [fst snd] in Hreq1 |- *.
    + split; [|split; [done|by eexists _, _]].
      by rewrite Hreq1, Hreq, <- app_assoc.
    + unfold console_error, on_client. cbn [fst snd].
      split; [|split; [done|by eexists _, _]].
      cbn. by rewrite Hreq1, Hreq, <- app_assoc.
  - cbn [fst snd]. split; [|split; [done|by eexists _, _]].
    by rewrite Hreq.
Qed.

End FirstPageFacts.

Lemma first_segment_never_from_previous_frame_witness :
  let page := {| storyTitle := js "A story"; storyDescription := [];
                 prompt := []; uploadedImage := Some (js "cat.png");
                 isCreating := false |} in
  let w := (initialClient, obliging) in
  let r := handleCreateStory initialState page w in
  trim (storyTitle page) ≠ []
  ∧ requests r.2.1
    = [PostStories (js "A story") [] "anonymous";
       PostGenerate "story-1"
         {| f_prompt := js "Create an opening scene"; f_use_previous_frame := false;
            f_target_sequence := None; f_image := Some (js "cat.png") |}].
Proof.
  intros page w r.
  assert (trim (storyTitle page) ≠ []) as H1.
  { vm_compute. discriminate. }
  assert ((post_stories (storyTitle page) (storyDescription page) "anonymous" w.2).1
          = Ok (story_of [] None)) as H2.
  { reflexivity. }
  split; [exact H1|].
  exact (proj1 (first_segment_never_from_previous_frame initialState page w
                  (story_of [] None) H1 H2)).
Defined.

(** ** Preloading the videos of a story onto the cards *)





(** ** The actions field of a character *)

Lemma trimStart_suffix (s : jsstring) : trimStart s `suffix_of` s.
Proof.
  induction s as [|c s IH]; simpl; [done|].
  destruct (is_white_space c); [by apply suffix_cons_r|done].
Qed.

Lemma trimStart_clean (s : jsstring) : starts_clean (trimStart s).
Proof.
  induction s as [|c s IH]; simpl; [done|].
  by destruct (is_white_space c) eqn:Hc.
Qed.

Lemma trimStart_id (s : jsstring) : starts_clean s → trimStart s = s.
Proof. destruct s as [|c s]; simpl; [done|]. by intros ->. Qed.

Lemma trimEnd_prefix (s : jsstring) : trimEnd s `prefix_of` s.
Proof.
  unfold trimEnd. destruct (trimStart_suffix (reverse s)) as [p Hp].
  exists (reverse p). apply (inj reverse).
  by rewrite reverse_app, !reverse_involutive.
Qed.

Lemma trimEnd_starts_clean (s : jsstring) : starts_clean s → starts_clean (trimEnd s).
Proof.
  intros Hs. destruct (trimEnd_prefix s) as [q Hq].
  destruct (trimEnd s) as [|c t]; [done|]. rewrite Hq in Hs. exact Hs.
Qed.

Lemma trimEnd_id (s : jsstring) : starts_clean (reverse s) → trimEnd s = s.
Proof.
  intros Hs. unfold trimEnd. by rewrite trimStart_id, reverse_involutive.
Qed.

Lemma trim_idemp (s : jsstring) : trim (trim s) = trim s.
Proof.
  unfold trim at 1.
  rewrite (trimStart_id (trim s)).
  - apply trimEnd_id. unfold trim, trimEnd. rewrite reverse_involutive.
    apply trimStart_clean.
  - apply trimEnd_starts_clean, trimStart_clean.
Qed.

Lemma trim_elem_of (c : N) (s : jsstring) : c ∈ trim s → c ∈ s.
Proof.
  unfold trim. intros Hc.
  destruct (trimEnd_prefix (trimStart s)) as [q Hq].
  destruct (trimStart_suffix s) as [p Hp].
  rewrite Hp, Hq, !elem_of_app. auto.
Qed.

Lemma trim_space (s : jsstring) : trim (32%N :: s) = trim s.
Proof. done. Qed.

Lemma split_on_cons_ne (sep c : N) (s : jsstring) :
  c ≠ sep →
  ∃ piece pieces, split_on sep s = piece :: pieces
                  ∧ split_on sep (c :: s) = (c :: piece) :: pieces.
Proof.
  intros Hc. cbn [split_on]. rewrite (proj2 (N.eqb_neq c sep) Hc).
  destruct s as [|c' s]; cbn [split_on]; [by eexists _, _|].
  destruct (c' =? sep)%N; [by eexists _, _|].
  destruct (split_on sep s); by eexists _, _.
Qed.

Lemma split_on_pieces (sep : N) (s : jsstring) :
  Forall (λ piece, sep ∉ piece) (split_on sep s).
Proof.
  induction s as [|c s IH]; cbn [split_on].
  - repeat constructor. by intros ?%elem_of_nil.
  - destruct (c =? sep)%N eqn:Hc.
    + constructor; [by intros ?%elem_of_nil|done].
    + apply N.eqb_neq in Hc.
      destruct (split_on sep s) as [|piece pieces]; [repeat constructor|].
      * intros [->|?%elem_of_nil]%elem_of_cons; done.
      * apply Forall_cons in IH as [Hp Hps]. constructor; [|done].
        intros [->|?]%elem_of_cons; done.
Qed.

Lemma split_on_nonempty (sep : N) (s : jsstring) : split_on sep s ≠ [].
Proof.
  destruct s as [|c s]; cbn [split_on]; [done|].
  destruct (c =? sep)%N; [done|]. by destruct (split_on sep s).
Qed.

Lemma split_on_app (sep : N) (s rest : jsstring) :
  split_on sep (s ++ sep :: rest) = split_on sep s ++ split_on sep rest.
Proof.
  induction s as [|c s IH]; cbn [app split_on].
  - by rewrite N.eqb_refl.
  - destruct (c =? sep)%N; [by rewrite IH|].
    rewrite IH. pose proof (split_on_nonempty sep s).
    by destruct (split_on sep s).
Qed.

Lemma split_on_no_sep (sep : N) (s : jsstring) : sep ∉ s → split_on sep s = [s].
Proof.
  induction s as [|c s IH]; intros Hs; cbn [split_on]; [done|].
  apply not_elem_of_cons in Hs as [Hc Hs].
  assert ((c =? sep)%N = false) as -> by (apply N.eqb_neq; congruence).
  by rewrite IH.
Qed.

(** X18. What the actions field of a character stores is in normal form:
    whatever is typed, every stored action is non-empty, has no white
    space around it and contains no comma. *)
Theorem parse_actions_stored (value : jsstring) :
  Forall stored_action (parse_actions value).
Proof.
  unfold parse_actions. apply Forall_forall. intros s Hs.
  apply list_elem_of_filter in Hs as [Htr Hs].
  apply list_elem_of_fmap in Hs as (piece & -> & Hpiece).
  split; [by apply truthy_nonempty|]. split; [apply trim_idemp|].
  intros Hc%trim_elem_of.
  by apply (proj1 (Forall_forall _ _) (split_on_pieces comma value) piece Hpiece).
Qed.

Lemma parse_actions_space (value : jsstring) :
  parse_actions (32%N :: value) = parse_actions value.
Proof.
  unfold parse_actions.
  destruct (split_on_cons_ne comma 32%N value) as (piece & pieces & -> & ->);
    [done|].
  by rewrite !fmap_cons, trim_space.
Qed.

Lemma parse_actions_app (value rest : jsstring) :
  parse_actions (value ++ comma :: rest) = parse_actions value ++ parse_actions rest.
Proof.
  unfold parse_actions. by rewrite split_on_app, fmap_app, filter_app.
Qed.

Lemma parse_actions_one (s : jsstring) : stored_action s → parse_actions s = [s].
Proof.
  intros (Hne & Htrim & Hcomma). unfold parse_actions.
  rewrite split_on_no_sep by done. cbn [fmap list_fmap]. rewrite Htrim.
  rewrite filter_cons_True; [done|]. by apply truthy_nonempty.
Qed.

Lemma parse_show_actions (actions : list jsstring) :
  Forall stored_action actions → parse_actions (show_actions actions) = actions.
Proof.
  unfold show_actions.
  induction 1 as [|s actions Hs Hall IH]; [done|].
  destruct actions as [|s' actions]; [by apply parse_actions_one|].
  change (join (js ", ") (s :: s' :: actions))
    with (s ++ comma :: 32%N :: join (js ", ") (s' :: actions)).
  by rewrite parse_actions_app, parse_actions_space, IH, parse_actions_one.
Qed.

(** X19. The actions field shows the stored actions joined by a comma and
    a space, and reading that text back gives the stored actions again.
    Since the field stores what it reads on every change and shows what it
    stores, a comma typed at the end of the field is lost at once: the
    text with the comma reads as the same actions, and so does the text
    followed by a comma and a space. *)
Theorem actions_field_round_trip (actions : list jsstring) :
  Forall stored_action actions →
  parse_actions (show_actions actions) = actions
  ∧ parse_actions (show_actions actions ++ js ",") = actions
  ∧ parse_actions (show_actions actions ++ js ", ") = actions.
Proof.
  intros Hall. pose proof (parse_show_actions actions Hall) as Hround.
  split; [done|]. split.
  - change (js ",") with [comma]. rewrite parse_actions_app, Hround.
    apply app_nil_r.
  - change (js ", ") with [comma; 32%N]. rewrite parse_actions_app, Hround.
    apply app_nil_r.
Qed.

Lemma actions_field_round_trip_witness :
  let actions := [js "runs"; js "looks back"] in
  Forall stored_action actions
  ∧ show_actions actions = js "runs, looks back"
  ∧ parse_actions (js "runs, looks back,") = actions.
Proof.
  intros actions.
  assert (Forall stored_action actions) as H1.
  { repeat constructor; try discriminate;
      apply (bool_decide_unpack _); vm_compute; exact I. }
  split; [exact H1|]. split; [reflexivity|].
  exact (proj1 (proj2 (actions_field_round_trip actions H1))).
Defined.

(** ** What is in generation is polled *)

Section Polled.
Context {B : Type} `{!Backend B}.

Lemma loadStory_activePolls (rendered : State) (sid : StoryId) (w : Client * B) :
  let r := loadStory rendered sid w in
  match (get_story sid w.2).1 with
  | Ok data =>
      r.1 = Return data
      ∧ activePolls r.2.1 = list_to_set (resumable data) ∪ activePolls w.1
  | Rejected e => r.1 = Throw e ∧ activePolls r.2.1 = activePolls w.1
  end.
Proof.
  intros r. subst r. destruct w as [c b]. unfold loadStory. act_unfold. cbn.
  destruct (get_story sid b) as [[data|e] b']; cbn; [|done].
  case_bool_decide; cbn; (split; [done|]);
    unfold resumePollingForStory; by rewrite resume_activePolls.
Qed.

(** X20. A story that has been loaded is watched. In whatever state the
    provider is, when [loadStory] returns a story, every segment of it that
    is [generating] or [publishing] and carries an operation id has, from
    then on, a live interval polling that operation, be it one that was
    running before or one started by this load. *)
Theorem loaded_story_is_polled (ins : list Interaction) (b0 : B)
    (rendered : State) (sid : StoryId) (story : Story) (seg : Segment)
    (op : OpId) :
  let w := session ins (initialClient, b0) in
  let r := loadStory rendered sid w in
  r.1 = Return story →
  seg ∈ segments story →
  status seg = generating ∨ status seg = publishing →
  operation_id seg = Some op →
  op ≠ "" →
  ∃ h p, intervals r.2.1 !! h = Some p ∧ p_operationId p = op.
Proof.
  intros w r Hret Hseg Hst Hop Hne.
  assert (timers_ok r.2.1) as Hok.
  { apply keeps_loadStory.
    apply (session_timers_ok ins (initialClient, b0) timers_ok_initial). }
  apply (ok_active _ Hok).
  pose proof (loadStory_activePolls rendered sid w) as Hl. cbv zeta in Hl.
  fold r in Hl. destruct (get_story sid w.2).1 as [data|e].
  - destruct Hl as [Hr ->]. rewrite Hr in Hret. injection Hret as ->.
    apply elem_of_union. left. apply elem_of_list_to_set, resumable_spec.
    by exists seg.
  - destruct Hl as [Hr _]. by rewrite Hr in Hret.
Qed.

(** X21. A generation that has been started is watched. In whatever state
    the provider is, when [generateVideoSegment] returns, the operation id
    in the answer of the backend is in [activePollsRef] and a live interval
    polls it. *)
Theorem started_generation_is_polled (ins : list Interaction) (b0 : B)
    (rendered : State) (sid : StoryId) (prompt : jsstring)
    (image : option jsstring) (usePrev : bool) (options : GenerateOptions)
    (data : GenerateResult) :
  let w := session ins (initialClient, b0) in
  let r := generateVideoSegment rendered sid prompt image usePrev options w in
  r.1 = Return data →
  gr_operation_id data ∈ activePolls r.2.1
  ∧ ∃ h p, intervals r.2.1 !! h = Some p ∧ p_operationId p = gr_operation_id data.
Proof.
  intros w r Hret.
  assert (timers_ok r.2.1) as Hok.
  { apply keeps_generateVideoSegment.
    apply (session_timers_ok ins (initialClient, b0) timers_ok_initial). }
  assert (gr_operation_id data ∈ activePolls r.2.1) as Hin.
  { subst r. revert Hret. generalize w. clear. intros [c b].
    unfold generateVideoSegment. act_unfold. cbn.
    destruct (silent options); cbn;
      (destruct (post_generate sid _ b) as [[data'|e] b']; cbn; [|done]);
      intros [= ->]; rewrite startStatusPolling_activePolls;
      apply elem_of_union; left; by apply elem_of_singleton. }
  split; [done|]. by apply (ok_active _ Hok).
Qed.

End Polled.

Lemma loaded_story_is_polled_witness :
  let w := session [] (initialClient, slow_backend) in
  let r := loadStory initialState "story-1" w in
  r.1 = Return (story_of [generating_1] None)
  ∧ ∃ h p, intervals r.2.1 !! h = Some p ∧ p_operationId p = "op-1".
Proof.
  intros w r.
  assert (r.1 = Return (story_of [generating_1] None)) as H1.
  { reflexivity. }
  assert (generating_1 ∈ segments (story_of [generating_1] None)) as H2.
  { left. }
  assert (status generating_1 = generating ∨ status generating_1 = publishing) as H3.
  { left. reflexivity. }
  assert (operation_id generating_1 = Some "op-1") as H4.
  { reflexivity. }
  assert ("op-1" ≠ "") as H5.
  { discriminate. }
  split; [exact H1|].
  exact (loaded_story_is_polled [] slow_backend initialState "story-1"
           (story_of [generating_1] None) generating_1 "op-1" H1 H2 H3 H4 H5).
Defined.

Lemma started_generation_is_polled_witness :
  let w := session [] (initialClient, obliging) in
  let data := {| gr_operation_id := "op-1"; gr_segment_id := "seg-1" |} in
  let r := generateVideoSegment initialState "story-1" (js "a dog runs") None false
             no_options w in
  r.1 = Return data
  ∧ "op-1" ∈ activePolls r.2.1.
Proof.
  intros w data r.
  assert (r.1 = Return data) as H1.
  { reflexivity. }
  split; [exact H1|].
  exact (proj1 (started_generation_is_polled [] obliging initialState "story-1"
                  (js "a dog runs") None false no_options data H1)).
Defined.

(** ** Creating the story of a storyboard on demand *)

Section Ensure.
Context {B : Type} `{!Backend B}.

Lemma loadStory_ok (rendered : State) (sid : StoryId) (w : Client * B)
    (data : Story) :
  (get_story sid w.2).1 = Ok data →
  let r := loadStory rendered sid w in
  r.1 = Return data
  ∧ r.2.2 = (get_story sid w.2).2
  ∧ requests r.2.1 = requests w.1 ++ [GetStory sid]
  ∧ toasts r.2.1 = toasts w.1
  ∧ currentStory (state r.2.1) = Some data.
Proof.
  intros Hget r. subst r. destruct w as [c b]. cbn [fst snd] in *.
  unfold loadStory. act_unfold. cbn. rewrite Hget. cbn.
  case_bool_decide; cbn;
    by rewrite (proj1 (resumePollingForStory_frame _ _ _)),
         (proj1 (proj2 (resumePollingForStory_frame _ _ _))),
         (proj2 (proj2 (resumePollingForStory_frame _ _ _))).
Qed.

(** X22. [ensureStoryExists], called from a render without a story but
    with a generated story, creates the story, stores the generation data
    and then loads the story twice, once inside
    [createStoryFromGeneration] and once itself, and returns what the
    second load returned. Although it asks for a silent creation, the
    success toast of [createStory] is shown. *)
Theorem ensureStoryExists_creates_and_loads_twice (rendered : State)
    (g : StoryGeneration) (userId : string) (w : Client * B)
    (created loaded loaded' : Story) :
  let t := fallbackTitle (Some g) in
  let d := or_str (sg_premise g) [] in
  let id := story_id created in
  let b1 := (post_stories t d userId w.2).2 in
  let b2 := (put_generation id g b1).2 in
  let b3 := (get_story id b2).2 in
  currentStory rendered = None →
  currentStoryGeneration rendered = Some g →
  (post_stories t d userId w.2).1 = Ok created →
  (put_generation id g b1).1 = Ok tt →
  (get_story id b2).1 = Ok loaded →
  (get_story id b3).1 = Ok loaded' →
  let r := ensureStoryExists rendered userId w in
  r.1 = Return loaded'
  ∧ requests r.2.1
    = requests w.1 ++ [PostStories t d userId; PutGeneration id g;
                       GetStory id; GetStory id]
  ∧ toasts r.2.1
    = toasts w.1 ++ [toast_success (js "Story created successfully!")]
  ∧ currentStory (state r.2.1) = Some loaded'.
Proof.
  intros t d id b1 b2 b3 Hcs Hcg Hpost Hput Hget Hget' r.
  subst r b3 b2 b1 id t d. destruct w as [c b]. cbn [fst snd] in *.
  unfold ensureStoryExists, createStoryFromGeneration. rewrite Hcs, Hcg.
  pose proof (loadStory_ok rendered) as Hl. revert Hl.
  generalize (loadStory rendered). intros load Hl.
  unfold createStory. act_unfold. cbn.
  rewrite Hpost. cbn. rewrite Hput. cbn.
  match goal with |- context [load ?s ?w] =>
    destruct (Hl s w loaded Hget) as (Ho & Hb & Hrq & Hts & _);
    destruct (load s w) as [[x|e] [c3 b3]] end; [|done].
  cbn [fst snd] in Ho, Hb, Hrq, Hts. injection Ho as ->. subst b3. cbn.
  match goal with |- context [load ?s ?w] =>
    destruct (Hl s w loaded' Hget') as (Ho & Hb & Hrq' & Hts' & Hcur);
    destruct (load s w) as [[x|e] [c4 b4]] end; [|done].
  cbn [fst snd] in Ho, Hb, Hrq', Hts', Hcur |- *. injection Ho as ->.
  cbn in Hrq', Hts'. rewrite Hrq', Hrq, Hts', Hts. cbn.
  by rewrite <- !app_assoc.
Qed.

End Ensure.

Lemma ensureStoryExists_creates_and_loads_twice_witness :
  let rendered := storyReducer initialState
                    (SET_CURRENT_STORY_GENERATION (Some two_scenes)) in
  let w := (with_state (λ _, rendered) initialClient, obliging) in
  let r := ensureStoryExists rendered "anonymous" w in
  currentStory rendered = None
  ∧ currentStoryGeneration rendered = Some two_scenes
  ∧ r.1 = Return (story_of [completed_1] None)
  ∧ requests r.2.1
    = [PostStories (js "A story") [] "anonymous";
       PutGeneration "story-1" two_scenes; GetStory "story-1"; GetStory "story-1"].
Proof.
  intros rendered w r.
  assert (currentStory rendered = None) as H1.
  { reflexivity. }
  assert (currentStoryGeneration rendered = Some two_scenes) as H2.
  { reflexivity. }
  split; [exact H1|]. split; [exact H2|].
  pose proof (ensureStoryExists_creates_and_loads_twice rendered two_scenes
                "anonymous" w (story_of [] None) (story_of [completed_1] None)
                (story_of [completed_1] None) H1 H2 eq_refl eq_refl eq_refl eq_refl)
    as H.
  exact (conj (proj1 H) (proj1 (proj2 H))).
Defined.

(** ** Errors without a response *)

(** X23. A request that got no response is reported as a network error,
    whatever the action: the response interceptor replaces the message of
    the error, and [handleApiError] then puts that message into the state
    and into an error toast, never the default message of the action. *)
Theorem no_response_is_network_error {B} `{!Backend B} (err : AxiosError)
    (defaultMessage : jsstring) (w : Client * B) :
  ax_response err = None →
  let r := handleApiError (response_interceptor err) defaultMessage w in
  error (state r.2.1) = Some (js "Network error - please check your connection")
  ∧ last (toasts r.2.1)
    = Some (toast_error (js "Network error - please check your connection")).
Proof.
  intros Hnone r. subst r. unfold response_interceptor. rewrite Hnone.
  destruct w as [c b]. act_unfold. cbn. split; [done|apply last_snoc].
Qed.

Lemma no_response_is_network_error_witness :
  let err := {| ax_response := None; ax_message := Some (js "timeout of 120000ms exceeded") |} in
  let r := handleApiError (response_interceptor err) (js "Failed to load story")
             (initialClient, offline) in
  ax_response err = None
  ∧ error (state r.2.1) = Some (js "Network error - please check your connection").
Proof.
  intros err r.
  assert (ax_response err = None) as H1.
  { reflexivity. }
  split; [exact H1|].
  exact (proj1 (no_response_is_network_error err (js "Failed to load story")
                  (initialClient, offline) H1)).
Defined.

(** ** The reducer *)

(** X24. UPDATE_STORY replaces in place. The list of stories keeps its
    length and the ids of its stories in their order; every story of the
    list with the id of the payload is the payload afterwards and every
    other story is untouched; the current story is replaced if and only if
    it has the id of the payload. The error and the recorded generation
    statuses are left alone. *)
Theorem update_story_in_place (s : State) (p : Story) :
  let s' := storyReducer s (UPDATE_STORY p) in
  story_id <$> stories s' = story_id <$> stories s
  ∧ (∀ i story, stories s !! i = Some story →
       stories s' !! i
       = Some (if bool_decide (story_id story = story_id p) then p else story))
  ∧ currentStory s'
    = (λ story, if bool_decide (story_id story = story_id p) then p else story)
        <$> currentStory s
  ∧ error s' = error s
  ∧ generationStatus s' = generationStatus s.
Proof.
  intros s'. subst s'. cbn. repeat split.
  - rewrite <- list_fmap_compose. apply list_fmap_ext. intros i story _. cbn.
    unfold same_story. by case_bool_decide.
  - intros i story Hi. by rewrite list_lookup_fmap, Hi.
  - destruct (currentStory s) as [c|]; [|done]. cbn. unfold same_story.
    by case_bool_decide.
Qed.

(** ** The list of stories *)

(** X25. The status filter of the list of stories and the badge of a
    story agree: for a story whose segment count is not negative and which
    has segments if it has a final video, each of the filters
    [completed], [in_progress] and [empty] lets the story through exactly
    when its badge reads Completed, In Progress and Empty, and the filter
    [all] lets every story through. *)
Theorem status_filter_agrees_with_badge (story : ListedStory) :
  0 ≤ segment_count story →
  (truthy_opt (listed_final_video_url story) = true → 0 < segment_count story) →
  (matchesFilter "completed" story = true ↔ getStatusInfo story = "Completed")
  ∧ (matchesFilter "in_progress" story = true ↔ getStatusInfo story = "In Progress")
  ∧ (matchesFilter "empty" story = true ↔ getStatusInfo story = "Empty")
  ∧ matchesFilter "all" story = true.
Proof.
  intros Hcount Hfinal. unfold matchesFilter, getStatusInfo. cbn.
  destruct (truthy_opt (listed_final_video_url story)) eqn:Hf; cbn.
  - specialize (Hfinal eq_refl).
    assert ((segment_count story =? 0) = false) as -> by lia.
    repeat split; done.
  - destruct (0 <? segment_count story) eqn:Hpos; cbn.
    + assert ((segment_count story =? 0) = false) as -> by lia.
      repeat split; done.
    + assert ((segment_count story =? 0) = true) as -> by lia.
      repeat split; done.
Qed.

Lemma status_filter_agrees_with_badge_witness :
  let story := {| listed_final_video_url := None; segment_count := 2 |} in
  0 ≤ segment_count story
  ∧ matchesFilter "in_progress" story = true
  ∧ getStatusInfo story = "In Progress".
Proof.
  intros story.
  assert (0 ≤ segment_count story) as H1.
  { cbn. lia. }
  assert (truthy_opt (listed_final_video_url story) = true → 0 < segment_count story)
    as H2.
  { cbn. lia. }
  split; [exact H1|]. split; [reflexivity|].
  exact (proj1 (proj1 (proj2 (status_filter_agrees_with_badge story H1 H2)))
           eq_refl).
Defined.
